(** * matroschka-prober: the transit registry, the receiver loop and the
      address-range part of the configuration, embedded in Rocq.

    Sources embedded here:
      - pkg/prober/transit_probes.go  (module [TransitProbes])
      - pkg/prober/receiver.go        (module [Receiver])
      - pkg/config/config.go          (module [Config])
    The wire codec of the prober package ([marshal], [unmarshal]) is not
    among these files; module [Probe] models it from the specification.

    Conventions.  Go's fixed-width integers are values of [Z] with the
    wrap-around written out ([wrap64], [to_int64], [wrap32]).  A byte is a
    [Z] in [0, 256).  A Go map is a [gmap].  A function that mutates its
    receiver returns the new receiver next to its result.  Every operation
    of the registry runs under the registry's lock from its first access to
    its last, so one call is one atomic step of the model. *)

From Stdlib Require Import ZArith Lia.
From stdpp Require Import base decidable option list list_numbers gmap fin_maps strings.

Local Open Scope Z_scope.

(** ** Fixed-width integers and big-endian byte strings *)

Module Wire.

(** uint64 arithmetic is arithmetic modulo 2^64. *)
Definition wrap64 (x : Z) : Z := x mod 2 ^ 64.

(** uint32 arithmetic is arithmetic modulo 2^32. *)
Definition wrap32 (x : Z) : Z := x mod 2 ^ 32.

(** The conversion [int64(u)] of a uint64: the same 64 bits, read in
    two's complement. *)
Definition to_int64 (u : Z) : Z := if u <? 2 ^ 63 then u else u - 2 ^ 64.

(** The conversion [uint64(i)] of an int64. *)
Definition to_uint64 (i : Z) : Z := wrap64 i.

(** int64 subtraction [a - b]. *)
Definition sub64 (a b : Z) : Z := to_int64 (wrap64 (a - b)).

Definition is_uint64 (x : Z) : Prop := 0 <= x < 2 ^ 64.
Definition is_int64 (x : Z) : Prop := - 2 ^ 63 <= x < 2 ^ 63.
Definition is_uint32 (x : Z) : Prop := 0 <= x < 2 ^ 32.
Definition is_byte (x : Z) : Prop := 0 <= x < 256.

(** [binary.BigEndian] on [n] bytes: the most significant byte first.
    Byte [k] (from the right) of [v] is [byte(v >> (8*k))]. *)
Fixpoint be_put (n : nat) (v : Z) : list Z :=
  match n with
  | O => []
  | S k => (Z.shiftr v (8 * Z.of_nat k)) mod 256 :: be_put k v
  end.

(** Reading a big-endian unsigned integer back. *)
Definition be_get (bs : list Z) : Z :=
  fold_left (fun acc b => acc * 256 + b) bs 0.

End Wire.

(** ** The probe and its wire format *)

Module Probe.
Import Wire.

(** The packet of the prober: the receiver reads [pkt.SequenceNumber]
    (a uint64, the key type of the registry) and [pkt.TimeStamp] (an
    int64, its value type). *)
Record probe : Type := mkProbe { SequenceNumber : Z; TimeStamp : Z }.

Definition wf_probe (p : probe) : Prop :=
  is_uint64 (SequenceNumber p) /\ is_int64 (TimeStamp p).

Inductive codec_error : Type := MalformedPacketError.

Definition headerLen : nat := 16.

(** Modelled from the spec: [marshal] is defined in a file of the prober
    package that is not part of the sources.  The specification fixes the
    layout: bytes [0,8) hold the sequence number, big-endian unsigned;
    bytes [8,16) hold the send timestamp, big-endian two's complement;
    bytes [16,payloadSize) are zero padding. *)
Definition marshal (p : probe) (payloadSize : nat) : list Z :=
  be_put 8 (SequenceNumber p) ++ be_put 8 (TimeStamp p)
    ++ replicate (payloadSize - headerLen) 0.

(** Modelled from the spec: [unmarshal] is defined next to [marshal] and
    is missing with it.  It fails with a malformed-packet error on an
    input shorter than the 16-byte header and otherwise reads the two
    header fields, ignoring what follows them. *)
Definition unmarshal (b : list Z) : probe + codec_error :=
  if (length b <? headerLen)%nat then inr MalformedPacketError
  else inl {| SequenceNumber := be_get (take 8 b);
              TimeStamp := to_int64 (be_get (take 8 (drop 8 b))) |}.

End Probe.

(** ** pkg/prober/transit_probes.go *)

Module TransitProbes.
Import Probe.

(** [type transitProbes struct { m map[uint64]int64; l sync.RWMutex }].
    The lock has no state of its own in a model whose steps are whole
    critical sections. *)
Record transitProbes : Type := mkTransitProbes { m : gmap Z Z }.

(** The value built by [fmt.Errorf("Sequence number %d not found", s)]:
    an ordinary [error] value carrying [s]. *)
Inductive error : Type := SequenceNumberNotFound (s : Z).

(** [func newTransitProbes() *transitProbes] *)
Definition newTransitProbes : transitProbes := {| m := ∅ |}.

(** [func (t *transitProbes) add(p *probe)] *)
Definition add (p : probe) (t : transitProbes) : transitProbes :=
  {| m := <[SequenceNumber p := TimeStamp p]> (m t) |}.

(** [func (t *transitProbes) remove(s uint64) error]; [None] is Go's
    [nil]. *)
Definition remove (s : Z) (t : transitProbes) : option error * transitProbes :=
  match m t !! s with
  | None => (Some (SequenceNumberNotFound s), t)
  | Some _ => (None, {| m := delete s (m t) |})
  end.

(** [func (t *transitProbes) getLt(lt int64) map[uint64]int64]: the range
    loop over [t.m] copies into [ret] the entries with [ts < lt].  The
    registry comes back as the second component. *)
Definition getLt (lt : Z) (t : transitProbes) : gmap Z Z * transitProbes :=
  (map_fold (fun s ts (ret : gmap Z Z) =>
               if decide (ts < lt) then <[s := ts]> ret else ret) ∅ (m t),
   t).

(** *** Two callers on one sequence number

    The receiver's access to the registry is one [remove]; the sweep of
    the timeout checker is one [getLt].  Both hold the lock for the whole
    call, so a run of two concurrent calls is one of the two orders of
    these atomic steps. *)
Inductive call : Type :=
| CallRemove (s : Z)
| CallGetLt (lt : Z).

(** Whether the call obtains sequence number [s]: [remove] by returning
    [nil] for it, [getLt] by returning an entry under it. *)
Definition claim (s : Z) (c : call) (t : transitProbes) : bool * transitProbes :=
  match c with
  | CallRemove s' =>
      let '(err, t') := remove s' t in
      (bool_decide (err = None) && bool_decide (s' = s), t')
  | CallGetLt lt =>
      let '(ret, t') := getLt lt t in
      (bool_decide (is_Some (ret !! s)), t')
  end.

(** Runs the calls in the given order; counts those that obtain [s]. *)
Fixpoint claimants (s : Z) (sched : list call) (t : transitProbes)
  : nat * transitProbes :=
  match sched with
  | [] => (O, t)
  | c :: rest =>
      let '(won, t') := claim s c t in
      let '(n, t'') := claimants s rest t' in
      ((if won then S n else n), t'')
  end.

End TransitProbes.

(** ** pkg/prober/receiver.go *)

Module Receiver.
Import Wire Probe.

(** The fields of the prober's configuration that the receiver reads,
    both uint64. *)
Record Config : Type := mkConfig { TimeoutMS : Z; MeasurementLengthMS : Z }.

(** What one turn of the loop gets from outside: whether the [stop]
    channel is ready when the [select] runs, what [p.udpConn.Read]
    delivers (the datagram, or an error), and the clock value read by
    [time.Now().UnixNano()]. *)
Record arrival : Type :=
  mkArrival { stopped : bool; read : list Z + string; now : Z }.

(** Control leaves one turn of the loop by [return] or by reaching the
    next turn ([continue], or the end of the body). *)
Inductive flow : Type := Return | Continue.

(** [udpConn.Read(recvBuffer)] on a datagram: its bytes go to the front
    of the buffer, cut at the buffer's length; the rest of the buffer
    keeps what it held. *)
Definition conn_Read (recvBuffer data : list Z) : list Z :=
  take (length recvBuffer) data ++ drop (length data) recvBuffer.

(** [func msToNS(s uint64) uint64] *)
Definition msToNS (s : Z) : Z := wrap64 (s * 1000000).

Section Aggregator.
(** The measurement store behind [p.measurements] belongs to another
    package; the receiver only calls its [AddRecv]. *)
Variable M : Type.
Variable AddRecv : Z -> Z -> Z -> M -> M.

(** The state of [Prober] that the receiver touches. *)
Record Prober : Type := mkProber {
  cfg : Config;
  mtu : nat;
  probesReceived : Z;
  latePackets : Z;
  transitProbes : TransitProbes.transitProbes;
  measurements : M
}.

Definition set_probesReceived (v : Z) (p : Prober) : Prober :=
  mkProber (cfg p) (mtu p) v (latePackets p) (transitProbes p) (measurements p).
Definition set_latePackets (v : Z) (p : Prober) : Prober :=
  mkProber (cfg p) (mtu p) (probesReceived p) v (transitProbes p) (measurements p).
Definition set_transitProbes (t : TransitProbes.transitProbes) (p : Prober) : Prober :=
  mkProber (cfg p) (mtu p) (probesReceived p) (latePackets p) t (measurements p).
Definition set_measurements (ms : M) (p : Prober) : Prober :=
  mkProber (cfg p) (mtu p) (probesReceived p) (latePackets p) (transitProbes p) ms.

(** [func (p *Prober) timedOut(s int64) bool] *)
Definition timedOut (p : Prober) (s : Z) : bool :=
  to_int64 (msToNS (TimeoutMS (cfg p))) <? s.

(** The body of the [for] loop of [func (p *Prober) receiver()]. *)
Definition receiver_body (a : arrival) (recvBuffer : list Z) (p : Prober)
  : flow * list Z * Prober :=
  if stopped a then (Return, recvBuffer, p)
  else
    match read a with
    | inr _ => (Return, recvBuffer, p)
    | inl data =>
        let recvBuffer := conn_Read recvBuffer data in
        let p := set_probesReceived (wrap64 (probesReceived p + 1)) p in
        match unmarshal recvBuffer with
        | inr _ => (Return, recvBuffer, p)
        | inl pkt =>
            match TransitProbes.remove (SequenceNumber pkt) (transitProbes p) with
            | (Some _, t) => (Continue, recvBuffer, set_transitProbes t p)
            | (None, t) =>
                let p := set_transitProbes t p in
                let rtt := sub64 (now a) (TimeStamp pkt) in
                if timedOut p rtt
                then (Continue, recvBuffer,
                      set_latePackets (wrap64 (latePackets p + 1)) p)
                else (Continue, recvBuffer,
                      set_measurements
                        (AddRecv (TimeStamp pkt) (to_uint64 rtt)
                           (MeasurementLengthMS (cfg p)) (measurements p)) p)
            end
        end
    end.

(** How far the loop is after the arrivals it was given: it has
    returned (and the deferred [p.udpConn.Close()] has run), or it is
    at the top of the next turn. *)
Inductive run : Type :=
| Returned (p : Prober)
| Looping (recvBuffer : list Z) (p : Prober).

Fixpoint receiver_loop (arrivals : list arrival) (recvBuffer : list Z)
  (p : Prober) : run :=
  match arrivals with
  | [] => Looping recvBuffer p
  | a :: rest =>
      match receiver_body a recvBuffer p with
      | (Return, _, p') => Returned p'
      | (Continue, recvBuffer', p') => receiver_loop rest recvBuffer' p'
      end
  end.

(** [func (p *Prober) receiver()], from [recvBuffer := make([]byte, p.mtu)]. *)
Definition receiver (arrivals : list arrival) (p : Prober) : run :=
  receiver_loop arrivals (replicate (mtu p) 0) p.

(** The state of the prober that a run of the loop has reached. *)
Definition reached (r : run) : Prober :=
  match r with
  | Returned p' => p'
  | Looping _ p' => p'
  end.

End Aggregator.

Arguments mkProber {M}.
Arguments cfg {M}.
Arguments mtu {M}.
Arguments probesReceived {M}.
Arguments latePackets {M}.
Arguments transitProbes {M}.
Arguments measurements {M}.
Arguments timedOut {M}.
Arguments set_probesReceived {M}.
Arguments set_latePackets {M}.
Arguments set_transitProbes {M}.
Arguments set_measurements {M}.
Arguments Returned {M}.
Arguments Looping {M}.
Arguments reached {M}.

End Receiver.


(** ** Go's [net] package, as far as config.go relies on it *)

Module Net.
Import Wire.

(** [net.IPNet]: the network address and the mask, both byte strings. *)
Record IPNet : Type := mkIPNet { IP : list Z; Mask : list Z }.

(** The inner loop of [simpleMaskLength]:
    [for v&0x80 != 0 { n++; v <<= 1 }] on a byte [v] other than 0xff; it
    ends within seven turns. *)
Fixpoint leadingOnes (turns : nat) (v n : Z) : Z * Z :=
  match turns with
  | O => (n, v)
  | S k => if Z.land v 128 =? 0 then (n, v)
           else leadingOnes k ((v * 2) mod 256) (n + 1)
  end.

(** [simpleMaskLength]: the number of leading one bits of a mask made of
    ones followed by zeros, and -1 for any other mask. *)
Fixpoint simpleMaskLength (mask : list Z) : Z :=
  match mask with
  | [] => 0
  | v :: rest =>
      if v =? 255 then
        let n := simpleMaskLength rest in
        if n =? -1 then -1 else 8 + n
      else
        let '(n, v') := leadingOnes 8 v 0 in
        if negb (v' =? 0) then -1
        else if forallb (Z.eqb 0) rest then n else -1
  end.

(** [func (m IPMask) Size() (ones, bits int)] *)
Definition Size (mask : list Z) : Z * Z :=
  let ones := simpleMaskLength mask in
  if ones =? -1 then (0, 0) else (ones, 8 * Z.of_nat (length mask)).

(** The bytes of [net.CIDRMask(ones, 8*l)]: [ones] one bits, then zeros. *)
Fixpoint CIDRMask_bytes (l : nat) (n : Z) : list Z :=
  match l with
  | O => []
  | S k => if 8 <=? n then 255 :: CIDRMask_bytes k (n - 8)
           else (255 - Z.shiftr 255 n) :: CIDRMask_bytes k 0
  end.

(** What [net.ParseCIDR] yields for an IPv4 range [a.b.c.d/ones]: four
    address bytes with the host bits cleared, and the mask of [ones] one
    bits out of 32. *)
Definition ipv4_net (n : IPNet) (ones : Z) : bool :=
  (0 <=? ones) && (ones <=? 32)
  && (length (IP n) =? 4)%nat
  && forallb (fun b => (0 <=? b) && (b <? 256)) (IP n)
  && bool_decide (Mask n = CIDRMask_bytes 4 ones)
  && (be_get (IP n) mod 2 ^ (32 - ones) =? 0).

End Net.

(** ** pkg/config/config.go *)

Module Config.
Import Wire Net.

Module Router.
(** [type Router struct] *)
Record Router : Type :=
  mkRouter { Name : string; DstRange : string; SrcRange : string }.
End Router.

Module Path.
(** [type Path struct]; a nil pointer is [None]. *)
Record Path : Type := mkPath {
  Name : string;
  Hops : list string;
  MeasurementLengthMS : option Z;
  PayloadSizeBytes : option Z;
  PPS : option Z;
  TimeoutMS : option Z
}.
End Path.

Module Hop.
(** [prober.Hop], as [PathToProberHops] fills it. *)
Record Hop : Type :=
  mkHop { Name : string; DstRange : list (list Z); SrcRange : list (list Z) }.
End Hop.

(** [type Config struct]: the two fields that validation and address
    generation read. *)
Record Config : Type :=
  mkConfig { Paths : list Path.Path; Routers : list Router.Router }.

(** The errors that [Validate] builds with [fmt.Errorf], by format string,
    holding the values that fill them. *)
Inductive error : Type :=
| RouterDoesNotExist (router path : string)
    (* "Router %q of path %q does not exist" *)
| UnableToParseDstRange (router : string) (err : string)
    (* "Unable to parse dst IP range for router %q: %v" *)
| PathValidationFailed (err : error)
    (* "Path validation failed: %v" *)
| RouterValidationFailed (err : error).
    (* "Router validation failed: %v" *)

(** A call either returns or panics with the error it was handed. *)
Inductive outcome (A : Type) : Type :=
| Done (a : A)
| Panic (err : string).
Arguments Done {A}.
Arguments Panic {A}.

(** [func uint32b(data []byte) (ret uint32)]: [binary.Read] fills [ret]
    from the first four bytes; with fewer it fails, the error is dropped
    and [ret] stays 0. *)
Definition uint32b (data : list Z) : Z :=
  if (length data <? 4)%nat then 0 else be_get (take 4 data).

(** [func uint32Byte(data uint32) (ret []byte)] *)
Definition uint32Byte (data : Z) : list Z := be_put 4 data.

(** [func getCIDRBase(n net.IPNet) uint32] *)
Definition getCIDRBase (n : IPNet) : Z := uint32b (IP n).

(** [func maskAddrCount(n net.IPNet) uint32]: the loop
    [for i := ones; i < bits; i++ { x = x * 2 }] doubles the uint32 [x]
    once for each [i] from [ones] up to [bits]. *)
Definition maskAddrCount (n : IPNet) : Z :=
  let '(ones, bits) := Size (Mask n) in
  if ones =? bits then 1
  else Nat.iter (Z.to_nat (bits - ones)) (fun x => wrap32 (x * 2)) 1.

(** The loop of [GenerateAddrs],
    [for i := uint32(0); i < c; i++ { ret[i] = net.IP(uint32Byte(baseAddr + i%c)) }],
    from counter [i] on, for at most [turns] turns. *)
Fixpoint GenerateAddrs_loop (turns : nat) (baseAddr c i : Z) (ret : list (list Z))
  : list (list Z) :=
  match turns with
  | O => ret
  | S k =>
      if i <? c
      then GenerateAddrs_loop k baseAddr c (wrap32 (i + 1))
             (<[Z.to_nat i := uint32Byte (wrap32 (baseAddr + i mod c))]> ret)
      else ret
  end.

(** The part of [GenerateAddrs] after the range is parsed.  The counter
    starts at 0 and [c] turns exhaust [i < c]. *)
Definition addrsOfNet (n : IPNet) : list (list Z) :=
  let baseAddr := getCIDRBase n in
  let c := maskAddrCount n in
  let ret := replicate (Z.to_nat c) [] in
  GenerateAddrs_loop (Z.to_nat c) baseAddr c 0 ret.

Section Parser.
(** [net.ParseCIDR], of Go's standard library: the address, the network,
    or an error. *)
Variable ParseCIDR : string -> (list Z * IPNet) + string.

(** [func (c *Config) routerExists(needle string) bool] *)
Fixpoint routerExists_loop (routers : list Router.Router) (needle : string) : bool :=
  match routers with
  | [] => false
  | r :: rest =>
      if String.eqb (Router.Name r) needle then true
      else routerExists_loop rest needle
  end.

Definition routerExists (c : Config) (needle : string) : bool :=
  routerExists_loop (Routers c) needle.

(** The inner loop of [validatePaths], over the hops of one path. *)
Fixpoint validateHops (c : Config) (path : string) (hops : list string)
  : option error :=
  match hops with
  | [] => None
  | h :: rest =>
      if negb (routerExists c h) then Some (RouterDoesNotExist h path)
      else validateHops c path rest
  end.

Fixpoint validatePaths_loop (c : Config) (paths : list Path.Path) : option error :=
  match paths with
  | [] => None
  | p :: rest =>
      match validateHops c (Path.Name p) (Path.Hops p) with
      | Some e => Some e
      | None => validatePaths_loop c rest
      end
  end.

(** [func (c *Config) validatePaths() error] *)
Definition validatePaths (c : Config) : option error :=
  validatePaths_loop c (Paths c).

Fixpoint validateRouters_loop (routers : list Router.Router) : option error :=
  match routers with
  | [] => None
  | r :: rest =>
      match ParseCIDR (Router.DstRange r) with
      | inr err => Some (UnableToParseDstRange (Router.Name r) err)
      | inl _ => validateRouters_loop rest
      end
  end.

(** [func (c *Config) validateRouters() error] *)
Definition validateRouters (c : Config) : option error :=
  validateRouters_loop (Routers c).

(** [func (c *Config) Validate() error] *)
Definition Validate (c : Config) : option error :=
  match validatePaths c with
  | Some err => Some (PathValidationFailed err)
  | None =>
      match validateRouters c with
      | Some err => Some (RouterValidationFailed err)
      | None => None
      end
  end.

(** [func GenerateAddrs(addrRange string) []net.IP] *)
Definition GenerateAddrs (addrRange : string) : outcome (list (list Z)) :=
  match ParseCIDR addrRange with
  | inr err => Panic err
  | inl (_, n) => Done (addrsOfNet n)
  end.

(** The inner loop of [PathToProberHops]: the routers named [hop], each
    appended to [res] with its two address pools. *)
Fixpoint hopRouters (hop : string) (routers : list Router.Router)
  (res : list Hop.Hop) : outcome (list Hop.Hop) :=
  match routers with
  | [] => Done res
  | r :: rest =>
      if negb (String.eqb hop (Router.Name r)) then hopRouters hop rest res
      else
        match GenerateAddrs (Router.DstRange r) with
        | Panic err => Panic err
        | Done dst =>
            match GenerateAddrs (Router.SrcRange r) with
            | Panic err => Panic err
            | Done src =>
                hopRouters hop rest
                  (res ++ [Hop.mkHop (Router.Name r) dst src])
            end
        end
  end.

Fixpoint PathToProberHops_loop (c : Config) (hops : list string)
  (res : list Hop.Hop) : outcome (list Hop.Hop) :=
  match hops with
  | [] => Done res
  | h :: rest =>
      match hopRouters h (Routers c) res with
      | Panic err => Panic err
      | Done res' => PathToProberHops_loop c rest res'
      end
  end.

(** [func (c *Config) PathToProberHops(pathCfg Path) []prober.Hop] *)
Definition PathToProberHops (c : Config) (pathCfg : Path.Path)
  : outcome (list Hop.Hop) :=
  PathToProberHops_loop c (Path.Hops pathCfg) [].

End Parser.

(** [func getNthAddr(n net.IPNet, i uint32) net.IP].  The remainder
    [i % c] by a zero [c] is a run-time panic. *)
Definition getNthAddr (n : IPNet) (i : Z) : outcome (list Z) :=
  let baseAddr := getCIDRBase n in
  let c := maskAddrCount n in
  if c =? 0 then Panic "runtime error: integer divide by zero"
  else Done (uint32Byte (wrap32 (baseAddr + i mod c))).

(** *** Defaults *)

Module Class.
(** [type Class struct] *)
Record Class : Type := mkClass { Name : string; TOS : Z }.
End Class.

Module Defaults.
(** [type Defaults struct]; a nil pointer is [None]. *)
Record Defaults : Type := mkDefaults {
  MeasurementLengthMS : option Z;
  PayloadSizeBytes : option Z;
  PPS : option Z;
  SrcRange : option string;
  TimeoutMS : option Z;
  SrcInterface : option string
}.
End Defaults.

(** The package variables that hold the default values. *)
Definition dfltBasePort : Z := 32768.
Definition dfltClass : Class.Class := Class.mkClass "BE" 0.
Definition dfltTimeoutMS : Z := 500.
Definition dfltListenAddress : string := ":9517".
Definition dfltMeasurementLengthMS : Z := 1000.
Definition dfltPayloadSizeBytes : Z := 0.
Definition dfltPPS : Z := 25.
Definition dfltSrcRange : string := "169.254.0.0/16".
Definition dfltMetricsPath : string := "/metrics".

(** [type Config struct] in full: the fields that defaulting reads and
    writes, and [Paths] and [Routers] as the record [Config] above.  A nil
    pointer is [None]; so is the nil slice of [Classes], which Go tells
    apart from an empty one. *)
Record FullConfig : Type := mkFullConfig {
  Version : string;
  MetricsPath : option string;
  ListenAddress : option string;
  BasePort : option Z;
  Defaults : option Defaults.Defaults;
  SrcRange : option string;
  Classes : option (list Class.Class);
  core : Config
}.

(** What Go panics with when a nil pointer is dereferenced. *)
Definition nilDereference : string :=
  "runtime error: invalid memory address or nil pointer dereference".

(** [if x == nil { x = y }] on a pointer field. *)
Definition orElse {A : Type} (x y : option A) : option A :=
  match x with
  | None => y
  | Some _ => x
  end.

(** [func (d *Defaults) applyDefaults()], on a receiver that is not nil. *)
Definition applyDefaults_Defaults (d : Defaults.Defaults) : Defaults.Defaults :=
  Defaults.mkDefaults
    (orElse (Defaults.MeasurementLengthMS d) (Some dfltMeasurementLengthMS))
    (orElse (Defaults.PayloadSizeBytes d) (Some dfltPayloadSizeBytes))
    (orElse (Defaults.PPS d) (Some dfltPPS))
    (orElse (Defaults.SrcRange d) (Some dfltSrcRange))
    (orElse (Defaults.TimeoutMS d) (Some dfltTimeoutMS))
    (Defaults.SrcInterface d).

(** [func (r *Router) applyDefaults(d *Defaults)]: an empty source range
    becomes [*d.SrcRange], which needs both pointers to be set. *)
Definition applyDefaults_Router (d : option Defaults.Defaults) (r : Router.Router)
  : outcome Router.Router :=
  if String.eqb (Router.SrcRange r) ""
  then match d with
       | None => Panic nilDereference
       | Some d =>
           match Defaults.SrcRange d with
           | None => Panic nilDereference
           | Some s => Done (Router.mkRouter (Router.Name r) (Router.DstRange r) s)
           end
       end
  else Done r.

(** [func (p *Path) applyDefaults(d *Defaults)]: each nil setting takes the
    pointer held by [d]; reading a field of a nil [d] panics. *)
Definition applyDefaults_Path (d : option Defaults.Defaults) (p : Path.Path)
  : outcome Path.Path :=
  match d with
  | Some d =>
      Done (Path.mkPath (Path.Name p) (Path.Hops p)
              (orElse (Path.MeasurementLengthMS p) (Defaults.MeasurementLengthMS d))
              (orElse (Path.PayloadSizeBytes p) (Defaults.PayloadSizeBytes d))
              (orElse (Path.PPS p) (Defaults.PPS d))
              (orElse (Path.TimeoutMS p) (Defaults.TimeoutMS d)))
  | None =>
      match Path.MeasurementLengthMS p, Path.PayloadSizeBytes p,
            Path.PPS p, Path.TimeoutMS p with
      | Some _, Some _, Some _, Some _ => Done p
      | _, _, _, _ => Panic nilDereference
      end
  end.

(** A [for i := range xs { xs[i].applyDefaults(d) }] loop. *)
Fixpoint applyDefaults_each {A : Type} (f : A -> outcome A) (xs : list A)
  : outcome (list A) :=
  match xs with
  | [] => Done []
  | x :: rest =>
      match f x with
      | Panic err => Panic err
      | Done x' =>
          match applyDefaults_each f rest with
          | Panic err => Panic err
          | Done rest' => Done (x' :: rest')
          end
      end
  end.

(** [func (c *Config) ApplyDefaults()] *)
Definition ApplyDefaults (c : FullConfig) : outcome FullConfig :=
  let d := applyDefaults_Defaults
             (match Defaults c with
              | None => Defaults.mkDefaults None None None None None None
              | Some d => d
              end) in
  let srcRange := orElse (SrcRange c) (Defaults.SrcRange d) in
  let metricsPath := orElse (MetricsPath c) (Some dfltMetricsPath) in
  let listenAddress := orElse (ListenAddress c) (Some dfltListenAddress) in
  let basePort := orElse (BasePort c) (Some dfltBasePort) in
  match applyDefaults_each (applyDefaults_Path (Some d)) (Paths (core c)) with
  | Panic err => Panic err
  | Done paths =>
      match applyDefaults_each (applyDefaults_Router (Some d)) (Routers (core c)) with
      | Panic err => Panic err
      | Done routers =>
          Done (mkFullConfig (Version c) metricsPath listenAddress basePort
                  (Some d) srcRange
                  (orElse (Classes c) (Some [dfltClass]))
                  (mkConfig paths routers))
      end
  end.

End Config.


(** ** Concrete runs used below *)

Module Scenario.
Import Wire Probe Net.

(** A measurement store that records the calls of [AddRecv] in order:
    send time, round-trip time, measurement length. *)
Definition calls : Type := list (Z * Z * Z).

Definition record_AddRecv (ts rtt len : Z) (ms : calls) : calls :=
  ms ++ [(ts, rtt, len)].

(** A prober with an MTU of 64 bytes and fresh counters. *)
Definition prober (timeoutMS : Z) (t : TransitProbes.transitProbes)
  : Receiver.Prober calls :=
  Receiver.mkProber (Receiver.mkConfig timeoutMS 1000) 64 0 0 t [].

(** Probe 1, sent at time 0, and the registry that holds it. *)
Definition probe1 : probe := mkProbe 1 0.

Definition in_flight : TransitProbes.transitProbes :=
  TransitProbes.add probe1 TransitProbes.newTransitProbes.

(** The reply to probe 1, read at clock value [at_ns]. *)
Definition reply (at_ns : Z) : Receiver.arrival :=
  Receiver.mkArrival false (inl (marshal probe1 64)) at_ns.

(** The smallest timeout in milliseconds whose nanosecond value does not
    fit an int64: 9223372036855 * 10^6 > 2^63 - 1. *)
Definition hugeTimeoutMS : Z := 9223372036855.

(** The values of [net.ParseCIDR] on three IPv4 ranges, and its error on
    every other string used below. *)
Definition parseCIDR (s : string) : (list Z * IPNet) + string :=
  if String.eqb s "10.0.0.0/30"
  then inl ([10; 0; 0; 0], mkIPNet [10; 0; 0; 0] [255; 255; 255; 252])
  else if String.eqb s "169.254.0.0/16"
  then inl ([169; 254; 0; 0], mkIPNet [169; 254; 0; 0] [255; 255; 0; 0])
  else if String.eqb s "0.0.0.0/0"
  then inl ([0; 0; 0; 0], mkIPNet [0; 0; 0; 0] [0; 0; 0; 0])
  else inr ("invalid CIDR address: " +:+ s).

(** A configuration with one router whose source range is not a CIDR
    range, and one path through that router. *)
Definition router1 : Config.Router.Router :=
  Config.Router.mkRouter "r1" "10.0.0.0/30" "not-a-range".

Definition path1 : Config.Path.Path :=
  Config.Path.mkPath "p1" ["r1"] None None None None.

Definition config1 : Config.Config := Config.mkConfig [path1] [router1].

(** A sound configuration: two routers with ranges that parse, and a path
    through both, the second first. *)
Definition router2 : Config.Router.Router :=
  Config.Router.mkRouter "r2" "10.0.0.0/30" "10.0.0.0/30".

Definition router3 : Config.Router.Router :=
  Config.Router.mkRouter "r3" "0.0.0.0/0" "10.0.0.0/30".

Definition path2 : Config.Path.Path :=
  Config.Path.mkPath "p2" ["r3"; "r2"] None (Some 64) None None.

Definition config2 : Config.Config := Config.mkConfig [path2] [router2; router3].

(** A path through a router that is not configured. *)
Definition path3 : Config.Path.Path :=
  Config.Path.mkPath "p3" ["r2"; "r9"] None None None None.

Definition config3 : Config.Config := Config.mkConfig [path3] [router2].

(** [net.ParseCIDR] on the IPv6 range 2001:db8::/32 as well. *)
Definition parseCIDR6 (s : string) : (list Z * IPNet) + string :=
  if String.eqb s "2001:db8::/32"
  then inl ([32; 1; 13; 184; 0; 0; 0; 0; 0; 0; 0; 0; 0; 0; 0; 0],
            mkIPNet [32; 1; 13; 184; 0; 0; 0; 0; 0; 0; 0; 0; 0; 0; 0; 0]
              [255; 255; 255; 255; 0; 0; 0; 0; 0; 0; 0; 0; 0; 0; 0; 0])
  else parseCIDR s.

(** A configuration file that sets the timeout default and one path
    setting, and leaves the source range of its router empty. *)
Definition file1 : Config.FullConfig :=
  Config.mkFullConfig "v1" None (Some ":9000") None
    (Some (Config.Defaults.mkDefaults None None None None (Some 250) None))
    (Some "192.0.2.0/24") None
    (Config.mkConfig [path2]
       [Config.Router.mkRouter "r2" "10.0.0.0/30" ""; router3]).

End Scenario.

(** * Properties *)

(** ** Fixed-width integers and byte strings *)

Section WireFacts.
Import Wire.

Lemma wrap64_small (x : Z) : is_uint64 x -> wrap64 x = x.
Proof. unfold is_uint64, wrap64. intros H. apply Z.mod_small. lia. Qed.

Lemma wrap32_small (x : Z) : is_uint32 x -> wrap32 x = x.
Proof. unfold is_uint32, wrap32. intros H. apply Z.mod_small. lia. Qed.

Lemma to_int64_wrap64 (x : Z) : is_int64 x -> to_int64 (wrap64 x) = x.
Proof.
  unfold is_int64, to_int64, wrap64. intros H.
  destruct (Z.neg_nonneg_cases x) as [Hneg | Hpos].
  - replace (x mod 2 ^ 64) with (x + 2 ^ 64).
    + destruct (Z.ltb_spec (x + 2 ^ 64) (2 ^ 63)); lia.
    + apply Z.mod_unique with (q := -1); lia.
  - rewrite Z.mod_small by lia.
    destruct (Z.ltb_spec x (2 ^ 63)); lia.
Qed.

(** In range, int64 subtraction is subtraction. *)
Lemma sub64_exact (a b : Z) : is_int64 (a - b) -> sub64 a b = a - b.
Proof. apply to_int64_wrap64. Qed.

Lemma length_be_put (n : nat) (v : Z) : length (be_put n v) = n.
Proof. induction n as [|n IH]; simpl; [reflexivity | by rewrite IH]. Qed.

Lemma be_put_bytes (n : nat) (v : Z) : Forall is_byte (be_put n v).
Proof.
  induction n as [|n IH]; simpl; constructor; [|exact IH].
  unfold is_byte. apply Z.mod_pos_bound. lia.
Qed.

Lemma be_get_acc (n : nat) (v acc : Z) :
  fold_left (fun a b => a * 256 + b) (be_put n v) acc
  = acc * 2 ^ (8 * Z.of_nat n) + v mod 2 ^ (8 * Z.of_nat n).
Proof.
  revert acc. induction n as [|n IH]; intros acc.
  - simpl. rewrite Z.mod_1_r. lia.
  - cbn [be_put fold_left]. rewrite IH.
    rewrite Z.shiftr_div_pow2 by lia.
    replace (8 * Z.of_nat (S n)) with (8 * Z.of_nat n + 8) by lia.
    rewrite Z.pow_add_r by lia.
    change (2 ^ 8) with 256.
    rewrite (Z.rem_mul_r v (2 ^ (8 * Z.of_nat n)) 256) by lia.
    lia.
Qed.

(** Writing [n] bytes and reading them back keeps the low [8n] bits. *)
Lemma be_get_put (n : nat) (v : Z) :
  be_get (be_put n v) = v mod 2 ^ (8 * Z.of_nat n).
Proof. unfold be_get. rewrite be_get_acc. lia. Qed.

End WireFacts.

(** ** The wire codec *)

Section ProbeFacts.
Import Wire Probe.

Lemma length_marshal (p : probe) (payloadSize : nat) :
  length (marshal p payloadSize) = Nat.max 16 payloadSize.
Proof.
  unfold marshal, headerLen.
  rewrite !length_app, !length_be_put, length_replicate. lia.
Qed.

Lemma unmarshal_marshal (p : probe) (payloadSize : nat) :
  wf_probe p -> unmarshal (marshal p payloadSize) = inl p.
Proof.
  intros [Hs Ht]. unfold unmarshal.
  rewrite length_marshal.
  destruct (Nat.ltb_spec (Nat.max 16 payloadSize) headerLen) as [Hlt | _];
    [unfold headerLen in Hlt; lia |].
  unfold marshal.
  rewrite (take_app_length' (be_put 8 (SequenceNumber p))) by (by rewrite length_be_put).
  rewrite (drop_app_length' (be_put 8 (SequenceNumber p))) by (by rewrite length_be_put).
  rewrite (take_app_length' (be_put 8 (TimeStamp p))) by (by rewrite length_be_put).
  rewrite !be_get_put.
  change (2 ^ (8 * Z.of_nat 8)) with (2 ^ 64).
  fold (wrap64 (SequenceNumber p)). fold (wrap64 (TimeStamp p)).
  rewrite wrap64_small by exact Hs.
  rewrite to_int64_wrap64 by exact Ht.
  by destruct p.
Qed.

Lemma unmarshal_short (b : list Z) :
  (length b < 16)%nat -> unmarshal b = inr MalformedPacketError.
Proof.
  intros H. unfold unmarshal, headerLen.
  destruct (Nat.ltb_spec (length b) 16); [reflexivity | lia].
Qed.

Lemma unmarshal_long (b : list Z) :
  (16 <= length b)%nat -> exists pkt, unmarshal b = inl pkt.
Proof.
  intros H. unfold unmarshal, headerLen.
  destruct (Nat.ltb_spec (length b) 16); [lia | eauto].
Qed.

(** C9.  Decoding an encoded probe gives the probe back, for every uint64
    sequence number and every int64 timestamp and whatever the padding;
    decoding fewer than 16 bytes fails with the malformed-packet error. *)
Theorem wire_round_trip :
  (forall (p : probe) (payloadSize : nat),
      is_uint64 (SequenceNumber p) -> is_int64 (TimeStamp p) ->
      unmarshal (marshal p payloadSize) = inl p)
  /\ (forall b : list Z,
         (length b < 16)%nat -> unmarshal b = inr MalformedPacketError).
Proof.
  split.
  - intros p n Hs Ht. apply unmarshal_marshal. by split.
  - exact unmarshal_short.
Qed.

(** The round trip at the corners of both ranges, and the failure on the
    empty and on a 15-byte input. *)
Lemma wire_round_trip_witness :
  unmarshal (marshal (mkProbe 0 0) 0) = inl (mkProbe 0 0)
  /\ unmarshal (marshal (mkProbe 1 (-1)) 16) = inl (mkProbe 1 (-1))
  /\ unmarshal (marshal (mkProbe (2 ^ 64 - 1) (2 ^ 63 - 1)) 64)
     = inl (mkProbe (2 ^ 64 - 1) (2 ^ 63 - 1))
  /\ unmarshal (marshal (mkProbe 0 (- 2 ^ 63)) 20) = inl (mkProbe 0 (- 2 ^ 63))
  /\ unmarshal [] = inr MalformedPacketError
  /\ unmarshal (replicate 15 7) = inr MalformedPacketError.
Proof.
  destruct wire_round_trip as [Hrt Hshort].
  split; [|split; [|split; [|split; [|split]]]].
  - apply Hrt; unfold is_uint64, is_int64; simpl; lia.
  - apply Hrt; unfold is_uint64, is_int64; simpl; lia.
  - apply Hrt; unfold is_uint64, is_int64; simpl; lia.
  - apply Hrt; unfold is_uint64, is_int64; simpl; lia.
  - apply Hshort; simpl; lia.
  - apply Hshort; simpl; lia.
Defined.

End ProbeFacts.

(** ** The transit registry *)

Section TransitProbesFacts.
Import Probe TransitProbes.

(** The map that [getLt] returns, entry by entry. *)
Lemma getLt_lookup (lt : Z) (t : transitProbes) (s ts : Z) :
  (getLt lt t).1 !! s = Some ts <-> m t !! s = Some ts /\ ts < lt.
Proof.
  unfold getLt. cbn [fst].
  generalize (m t). clear t. intros r.
  apply (map_fold_weak_ind
           (fun (ret r : gmap Z Z) =>
              ret !! s = Some ts <-> r !! s = Some ts /\ ts < lt)).
  - rewrite lookup_empty. intuition discriminate.
  - intros i x r0 ret Hfresh IH.
    destruct (decide (x < lt)) as [Hlt | Hge].
    + rewrite !lookup_insert_Some, IH.
      split.
      * intros [[-> ->] | [Hne [Hr Hts]]]; [auto | split; [right|]; auto].
      * intros [[[-> ->] | [Hne Hr]] Hts]; [left | right]; auto.
    + rewrite lookup_insert_Some, IH.
      split.
      * intros [Hr Hts]. split; [right; split|]; auto.
        intros ->. rewrite Hfresh in Hr. discriminate.
      * intros [[[-> ->] | [Hne Hr]] Hts]; [lia | auto].
Qed.

Lemma getLt_registry (lt : Z) (t : transitProbes) : (getLt lt t).2 = t.
Proof. reflexivity. Qed.

Lemma getLt_lookup_is_Some (lt : Z) (t : transitProbes) (s : Z) :
  is_Some ((getLt lt t).1 !! s) <-> exists ts, m t !! s = Some ts /\ ts < lt.
Proof.
  split.
  - intros [ts H]. exists ts. by apply getLt_lookup.
  - intros [ts H]. exists ts. by apply getLt_lookup.
Qed.

Lemma remove_present (s ts : Z) (t : transitProbes) :
  m t !! s = Some ts -> remove s t = (None, {| m := delete s (m t) |}).
Proof. intros H. unfold remove. by rewrite H. Qed.

Lemma remove_absent (s : Z) (t : transitProbes) :
  m t !! s = None -> remove s t = (Some (SequenceNumberNotFound s), t).
Proof. intros H. unfold remove. by rewrite H. Qed.

(** C1, as the code has it.  The map returned by [getLt] holds exactly the
    entries of the registry whose send time is strictly below the bound,
    and the call leaves the registry as it was: [getLt] reads and removes
    nothing. *)
Theorem getLt_reads_only (lt : Z) (t : transitProbes) :
  (forall s ts, (getLt lt t).1 !! s = Some ts <-> m t !! s = Some ts /\ ts < lt)
  /\ (getLt lt t).2 = t.
Proof. split; [intros s ts; apply getLt_lookup | apply getLt_registry]. Qed.

(** C1 fails as stated.  With probe 1 registered at time 5, [getLt 10]
    returns the entry under 1 and the registry still holds it: it is not
    the case that every returned sequence number is absent afterwards. *)
Lemma getLt_leaves_returned_entry :
  let t := add (mkProbe 1 5) newTransitProbes in
  (getLt 10 t).1 !! 1 = Some 5
  /\ ~ (forall s, is_Some ((getLt 10 t).1 !! s) -> m (getLt 10 t).2 !! s = None).
Proof.
  intros t.
  assert (Hin : m t !! 1 = Some 5) by (unfold t, add; cbn; apply lookup_insert_eq).
  assert (Hret : (getLt 10 t).1 !! 1 = Some 5) by (apply getLt_lookup; split; [exact Hin | lia]).
  split; [exact Hret |].
  intros Hall. specialize (Hall 1 (ex_intro _ 5 Hret)).
  rewrite getLt_registry, Hin in Hall. discriminate.
Qed.

(** C3, as the code has it.  [remove s] does one of two things.  If the
    registry holds [s], it returns [nil] and the registry loses the entry
    under [s] and nothing else.  If not, it returns the not-found error
    value and the registry is the one it was.  No send time is returned in
    either case. *)
Theorem remove_present_or_absent (s : Z) (t : transitProbes) :
  (exists ts, m t !! s = Some ts
              /\ (remove s t).1 = None
              /\ m (remove s t).2 = delete s (m t))
  \/ (m t !! s = None
      /\ (remove s t).1 = Some (SequenceNumberNotFound s)
      /\ (remove s t).2 = t).
Proof.
  destruct (m t !! s) as [ts|] eqn:H.
  - left. exists ts. by rewrite (remove_present s ts t H).
  - right. by rewrite (remove_absent s t H).
Qed.

(** C3 fails as stated.  What [remove] returns for a present sequence
    number does not depend on the stored send time, so no reading of the
    returned value gives that time back. *)
Lemma remove_returns_no_timestamp :
  ~ exists f : option error -> Z,
      forall s t ts, m t !! s = Some ts -> f (remove s t).1 = ts.
Proof.
  intros [f Hf].
  pose proof (Hf 1 (add (mkProbe 1 5) newTransitProbes) 5) as H5.
  pose proof (Hf 1 (add (mkProbe 1 7) newTransitProbes) 7) as H7.
  unfold add, remove in H5, H7. cbn in H5, H7.
  rewrite lookup_insert_eq in H5, H7.
  specialize (H5 eq_refl). specialize (H7 eq_refl). cbn in H5, H7.
  congruence.
Qed.

(** C7.  After [add p] the registry maps [p]'s sequence number to [p]'s
    send time, every other sequence number is mapped as before, and a
    following [getLt cutoff] returns the entry of [p] exactly when [p]'s
    send time is strictly below [cutoff]. *)
Theorem add_then_getLt (p : probe) (t : transitProbes) :
  m (add p t) !! SequenceNumber p = Some (TimeStamp p)
  /\ (forall s, s <> SequenceNumber p -> m (add p t) !! s = m t !! s)
  /\ (forall cutoff,
         (getLt cutoff (add p t)).1 !! SequenceNumber p
         = if decide (TimeStamp p < cutoff) then Some (TimeStamp p) else None).
Proof.
  assert (Hnew : m (add p t) !! SequenceNumber p = Some (TimeStamp p))
    by apply lookup_insert_eq.
  split; [exact Hnew |]. split.
  - intros s Hs. unfold add. cbn. by rewrite lookup_insert_ne.
  - intros cutoff. destruct (decide (TimeStamp p < cutoff)) as [Hlt | Hge].
    + apply getLt_lookup. by split.
    + destruct ((getLt cutoff (add p t)).1 !! SequenceNumber p) as [ts|] eqn:E;
        [| reflexivity].
      apply getLt_lookup in E as [E Hts]. rewrite Hnew in E. congruence.
Qed.

(** An overwritten entry, and one kept under another number: probe 2 goes
    from time 9 to time 3 while probe 1 stays, and the sweep below 4 sees
    probe 2 but the sweep below 3 does not. *)
Lemma add_then_getLt_witness :
  let t := add (mkProbe 2 9) (add (mkProbe 1 5) newTransitProbes) in
  let t' := add (mkProbe 2 3) t in
  m t' !! 2 = Some 3
  /\ m t' !! 1 = m t !! 1
  /\ (getLt 4 t').1 !! 2 = Some 3
  /\ (getLt 3 t').1 !! 2 = None.
Proof.
  intros t t'.
  destruct (add_then_getLt (mkProbe 2 3) t) as (Hnew & Hframe & Hsweep).
  split; [exact Hnew |]. split; [apply Hframe; cbn; lia |].
  split; [exact (Hsweep 4) | exact (Hsweep 3)].
Defined.

End TransitProbesFacts.

(** ** One [remove] against one sweep *)

Section Claims.
Import Probe TransitProbes.

Lemma claim_remove_present (s ts : Z) (t : transitProbes) :
  m t !! s = Some ts ->
  claim s (CallRemove s) t = (true, {| m := delete s (m t) |}).
Proof.
  intros H. unfold claim. rewrite (remove_present s ts t H).
  by rewrite !bool_decide_eq_true_2.
Qed.

Lemma claim_remove_absent (s : Z) (t : transitProbes) :
  m t !! s = None -> claim s (CallRemove s) t = (false, t).
Proof.
  intros H. unfold claim. rewrite (remove_absent s t H).
  by rewrite bool_decide_eq_false_2.
Qed.

Lemma claim_getLt_hit (s ts lt : Z) (t : transitProbes) :
  m t !! s = Some ts -> ts < lt -> claim s (CallGetLt lt) t = (true, t).
Proof.
  intros Hin Hlt. unfold claim, getLt. f_equal.
  apply bool_decide_eq_true_2.
  apply (getLt_lookup_is_Some lt t s). eauto.
Qed.

Lemma claim_getLt_miss (s lt : Z) (t : transitProbes) :
  m t !! s = None -> claim s (CallGetLt lt) t = (false, t).
Proof.
  intros Hout. unfold claim, getLt. f_equal.
  apply bool_decide_eq_false_2. intros Hsome.
  apply (getLt_lookup_is_Some lt t s) in Hsome as (ts & Hin & _). congruence.
Qed.

(** Between two [remove s] calls on a registry that holds [s], the first
    returns [nil] and the second the not-found error. *)
Lemma remove_twice (s ts : Z) (t : transitProbes) :
  m t !! s = Some ts ->
  (remove s t).1 = None
  /\ (remove s (remove s t).2).1 = Some (SequenceNumberNotFound s).
Proof.
  intros H. rewrite (remove_present s ts t H). cbn.
  split; [reflexivity |].
  rewrite remove_absent; [reflexivity |]. cbn. apply lookup_delete_eq.
Qed.

(** C2, as the code has it.  Take a registry that holds [s] with a send
    time below [cutoff], and the two orders of one [remove s] and one
    [getLt cutoff].  In both orders [remove s] returns [nil] and [s] is gone
    at the end, so the entry is never left unclaimed.  When [remove] runs
    first it is the only call that obtains [s].  When [getLt] runs first it
    returns [s] too, because it removes nothing, and both calls obtain [s].
    Of two [remove s] calls exactly one returns [nil]. *)
Theorem claimants_by_order (s ts cutoff : Z) (t : transitProbes) (sched : list call) :
  m t !! s = Some ts -> ts < cutoff ->
  sched ≡ₚ [CallRemove s; CallGetLt cutoff] ->
  ((sched = [CallRemove s; CallGetLt cutoff] /\ (claimants s sched t).1 = 1%nat)
   \/ (sched = [CallGetLt cutoff; CallRemove s] /\ (claimants s sched t).1 = 2%nat))
  /\ m (claimants s sched t).2 !! s = None
  /\ (claimants s [CallRemove s; CallRemove s] t).1 = 1%nat.
Proof.
  intros Hin Hlt Hperm. symmetry in Hperm.
  assert (Hgone : m {| m := delete s (m t) |} !! s = None) by apply lookup_delete_eq.
  split; [| split].
  - apply Permutation_length_2_inv in Hperm as [-> | ->]; [left | right];
      (split; [reflexivity |]); cbn [claimants].
    + by rewrite (claim_remove_present s ts t Hin), (claim_getLt_miss _ _ _ Hgone).
    + by rewrite (claim_getLt_hit s ts cutoff t Hin Hlt), (claim_remove_present s ts t Hin).
  - apply Permutation_length_2_inv in Hperm as [-> | ->]; cbn [claimants].
    + by rewrite (claim_remove_present s ts t Hin), (claim_getLt_miss _ _ _ Hgone).
    + by rewrite (claim_getLt_hit s ts cutoff t Hin Hlt), (claim_remove_present s ts t Hin).
  - cbn [claimants].
    by rewrite (claim_remove_present s ts t Hin), (claim_remove_absent _ _ Hgone).
Qed.

(** Probe 1 sent at time 5, cutoff 10, the sweep first. *)
Lemma claimants_by_order_witness :
  let t := add (mkProbe 1 5) newTransitProbes in
  let sched := [CallGetLt 10; CallRemove 1] in
  ((sched = [CallRemove 1; CallGetLt 10] /\ (claimants 1 sched t).1 = 1%nat)
   \/ (sched = [CallGetLt 10; CallRemove 1] /\ (claimants 1 sched t).1 = 2%nat))
  /\ m (claimants 1 sched t).2 !! 1 = None
  /\ (claimants 1 [CallRemove 1; CallRemove 1] t).1 = 1%nat.
Proof.
  intros t sched.
  apply (claimants_by_order 1 5 10 t sched).
  - unfold t, add. cbn. apply lookup_insert_eq.
  - lia.
  - unfold sched. apply perm_swap.
Defined.

(** C2 fails as stated.  With probe 1 registered at time 5 and cutoff 10,
    the order in which the sweep runs before the [remove] lets both calls
    obtain sequence number 1: not every order of the two calls has exactly
    one claimant. *)
Lemma sweep_first_two_claimants :
  let t := add (mkProbe 1 5) newTransitProbes in
  ~ (forall sched, sched ≡ₚ [CallRemove 1; CallGetLt 10] ->
                   (claimants 1 sched t).1 = 1%nat).
Proof.
  intros t Hall.
  specialize (Hall [CallGetLt 10; CallRemove 1] (perm_swap _ _ _)).
  assert (Hin : m t !! 1 = Some 5) by (unfold t, add; cbn; apply lookup_insert_eq).
  cbn [claimants] in Hall.
  rewrite (claim_getLt_hit 1 5 10 t Hin), (claim_remove_present 1 5 t Hin) in Hall
    by lia.
  cbn in Hall. discriminate.
Qed.

End Claims.

(** ** The receiver loop *)

Section ReceiverFacts.
Import Wire Probe Receiver.

Variable M : Type.
Variable AddRecv : Z -> Z -> Z -> M -> M.

Local Abbreviation receiver_body := (Receiver.receiver_body M AddRecv).
Local Abbreviation receiver_loop := (Receiver.receiver_loop M AddRecv).

Lemma length_conn_Read (recvBuffer data : list Z) :
  length (conn_Read recvBuffer data) = length recvBuffer.
Proof. unfold conn_Read. rewrite length_app, length_take, length_drop. lia. Qed.

Lemma receiver_body_stopped (a : arrival) (buf : list Z) (p : Prober M) :
  stopped a = true -> receiver_body a buf p = (Return, buf, p).
Proof. intros H. unfold Receiver.receiver_body. by rewrite H. Qed.

Lemma receiver_body_read_error (a : arrival) (buf : list Z) (p : Prober M) (e : string) :
  stopped a = false -> read a = inr e -> receiver_body a buf p = (Return, buf, p).
Proof. intros Hs Hr. unfold Receiver.receiver_body. by rewrite Hs, Hr. Qed.

Lemma receiver_body_malformed (a : arrival) (buf data : list Z) (p : Prober M)
  (e : codec_error) :
  stopped a = false -> read a = inl data ->
  unmarshal (conn_Read buf data) = inr e ->
  receiver_body a buf p
  = (Return, conn_Read buf data,
     set_probesReceived (wrap64 (probesReceived p + 1)) p).
Proof.
  intros Hs Hr Hu. unfold Receiver.receiver_body. rewrite Hs, Hr. cbv zeta.
  by rewrite Hu.
Qed.

Lemma receiver_body_not_found (a : arrival) (buf data : list Z) (p : Prober M)
  (pkt : probe) :
  stopped a = false -> read a = inl data ->
  unmarshal (conn_Read buf data) = inl pkt ->
  TransitProbes.m (transitProbes p) !! SequenceNumber pkt = None ->
  receiver_body a buf p
  = (Continue, conn_Read buf data,
     set_probesReceived (wrap64 (probesReceived p + 1)) p).
Proof.
  intros Hs Hr Hu Hm. unfold Receiver.receiver_body. rewrite Hs, Hr. cbv zeta.
  rewrite Hu. cbn [set_probesReceived transitProbes].
  rewrite (remove_absent _ _ Hm). by destruct p.
Qed.

Lemma receiver_body_found (a : arrival) (buf data : list Z) (p : Prober M)
  (pkt : probe) (ts0 : Z) :
  stopped a = false -> read a = inl data ->
  unmarshal (conn_Read buf data) = inl pkt ->
  TransitProbes.m (transitProbes p) !! SequenceNumber pkt = Some ts0 ->
  let rtt := sub64 (now a) (TimeStamp pkt) in
  let p1 := mkProber (cfg p) (mtu p) (wrap64 (probesReceived p + 1)) (latePackets p)
              (TransitProbes.mkTransitProbes
                 (delete (SequenceNumber pkt) (TransitProbes.m (transitProbes p))))
              (measurements p) in
  receiver_body a buf p
  = (Continue, conn_Read buf data,
     if timedOut p rtt
     then set_latePackets (wrap64 (latePackets p + 1)) p1
     else set_measurements
            (AddRecv (TimeStamp pkt) (to_uint64 rtt) (MeasurementLengthMS (cfg p))
               (measurements p)) p1).
Proof.
  intros Hs Hr Hu Hm rtt p1. unfold Receiver.receiver_body. rewrite Hs, Hr. cbv zeta.
  rewrite Hu. cbn [set_probesReceived transitProbes].
  rewrite (remove_present _ _ _ Hm).
  unfold timedOut, set_transitProbes, set_probesReceived.
  cbn [cfg mtu probesReceived latePackets measurements transitProbes].
  fold rtt.
  by destruct (to_int64 (msToNS (TimeoutMS (cfg p))) <? rtt).
Qed.

(** With a timeout whose nanosecond value fits an int64, [timedOut] is the
    strict comparison against that value. *)
Lemma timedOut_spec (p : Prober M) (s : Z) :
  0 <= TimeoutMS (cfg p) -> TimeoutMS (cfg p) * 1000000 < 2 ^ 63 ->
  timedOut p s = true <-> s > TimeoutMS (cfg p) * 1000000.
Proof.
  intros H0 Hfit. unfold timedOut, msToNS.
  rewrite wrap64_small by (unfold is_uint64; lia).
  unfold to_int64.
  destruct (Z.ltb_spec (TimeoutMS (cfg p) * 1000000) (2 ^ 63)); [| lia].
  rewrite Z.ltb_lt. lia.
Qed.

(** While the buffer has room for a header, no stop is signalled and every
    read succeeds, the loop does not return. *)
Lemma receiver_loop_goes_on (arrivals : list arrival) (buf : list Z) (p : Prober M) :
  (16 <= length buf)%nat ->
  Forall (fun a => stopped a = false /\ exists data, read a = inl data) arrivals ->
  exists buf' p', receiver_loop arrivals buf p = Looping buf' p'.
Proof.
  intros Hbuf Hall. revert buf p Hbuf.
  induction Hall as [|a rest [Hs [data Hr]] _ IH]; intros buf p Hbuf.
  - cbn. eauto.
  - assert (Hlen : (16 <= length (conn_Read buf data))%nat)
      by (by rewrite length_conn_Read).
    destruct (unmarshal_long _ Hlen) as [pkt Hu].
    cbn [Receiver.receiver_loop].
    destruct (TransitProbes.m (transitProbes p) !! SequenceNumber pkt) as [ts0|] eqn:Hm.
    + rewrite (receiver_body_found a buf data p pkt ts0 Hs Hr Hu Hm). by apply IH.
    + rewrite (receiver_body_not_found a buf data p pkt Hs Hr Hu Hm). by apply IH.
Qed.

(** The same for [receiver] itself, whose buffer has [mtu] bytes. *)
Lemma receiver_goes_on (arrivals : list arrival) (p : Prober M) :
  (16 <= mtu p)%nat ->
  Forall (fun a => stopped a = false /\ exists data, read a = inl data) arrivals ->
  exists buf' p', Receiver.receiver M AddRecv arrivals p = Looping buf' p'.
Proof.
  intros Hmtu Hall. unfold Receiver.receiver.
  apply receiver_loop_goes_on; [by rewrite length_replicate | exact Hall].
Qed.

(** C6.  One turn of the loop ends in [return] exactly when the stop
    channel is ready at the [select], or the read fails, or the buffer does
    not decode; the loop then returns.  In every other turn, which is one
    whose datagram decodes, whether its sequence number is unknown, late or
    on time, the loop goes on with the next arrival. *)
Theorem receiver_returns_iff (a : arrival) (rest : list arrival) (buf : list Z)
  (p : Prober M) :
  let '(f, buf', p') := receiver_body a buf p in
  (f = Return <->
     stopped a = true
     \/ (exists e, read a = inr e)
     \/ (exists data e, read a = inl data /\ unmarshal (conn_Read buf data) = inr e))
  /\ (f = Continue <->
       stopped a = false
       /\ exists data pkt, read a = inl data /\ unmarshal (conn_Read buf data) = inl pkt)
  /\ receiver_loop (a :: rest) buf p
     = match f with
       | Return => Returned p'
       | Continue => receiver_loop rest buf' p'
       end.
Proof.
  destruct (receiver_body a buf p) as [[f buf'] p'] eqn:E.
  split; [| split]; [| | cbn [Receiver.receiver_loop]; rewrite E; by destruct f].
  - destruct (stopped a) eqn:Hs.
    { rewrite receiver_body_stopped in E by exact Hs.
      injection E as <- _ _. split; auto. }
    destruct (read a) as [data | e] eqn:Hr.
    2:{ rewrite (receiver_body_read_error a buf p e Hs Hr) in E.
        injection E as <- _ _. split; eauto. }
    destruct (unmarshal (conn_Read buf data)) as [pkt | e] eqn:Hu.
    2:{ rewrite (receiver_body_malformed a buf data p e Hs Hr Hu) in E.
        injection E as <- _ _. split; eauto 6. }
    assert (Hf : f = Continue).
    { destruct (TransitProbes.m (transitProbes p) !! SequenceNumber pkt) as [ts0|] eqn:Hm.
      - rewrite (receiver_body_found a buf data p pkt ts0 Hs Hr Hu Hm) in E.
        by injection E as <- _ _.
      - rewrite (receiver_body_not_found a buf data p pkt Hs Hr Hu Hm) in E.
        by injection E as <- _ _. }
    subst f. split; [discriminate |].
    intros [? | [[e He] | (d & e & Hd & He)]]; [discriminate | discriminate |].
    injection Hd as <-. congruence.
  - destruct (stopped a) eqn:Hs.
    { rewrite receiver_body_stopped in E by exact Hs.
      injection E as <- _ _. split; [discriminate | intros [? _]; discriminate]. }
    destruct (read a) as [data | e] eqn:Hr.
    2:{ rewrite (receiver_body_read_error a buf p e Hs Hr) in E.
        injection E as <- _ _.
        split; [discriminate | intros [_ (d & pkt & Hd & _)]; discriminate]. }
    destruct (unmarshal (conn_Read buf data)) as [pkt | e] eqn:Hu.
    2:{ rewrite (receiver_body_malformed a buf data p e Hs Hr Hu) in E.
        injection E as <- _ _.
        split; [discriminate | intros [_ (d & pkt & Hd & Hp)]].
        injection Hd as <-. congruence. }
    assert (Hf : f = Continue).
    { destruct (TransitProbes.m (transitProbes p) !! SequenceNumber pkt) as [ts0|] eqn:Hm.
      - rewrite (receiver_body_found a buf data p pkt ts0 Hs Hr Hu Hm) in E.
        by injection E as <- _ _.
      - rewrite (receiver_body_not_found a buf data p pkt Hs Hr Hu Hm) in E.
        by injection E as <- _ _. }
    subst f. split; [intros _; split; eauto | reflexivity].
Qed.

(** C5, as the code has it.  A datagram that decodes to a sequence number
    the registry does not hold leaves the late counter, the measurements
    and the registry as they were, and the loop goes on; the counter of
    received probes, advanced as soon as the read succeeds, is one higher
    (modulo 2^64). *)
Theorem receiver_unknown_sequence (a : arrival) (buf data : list Z) (p : Prober M)
  (pkt : probe) :
  stopped a = false -> read a = inl data ->
  unmarshal (conn_Read buf data) = inl pkt ->
  TransitProbes.m (transitProbes p) !! SequenceNumber pkt = None ->
  let '(f, _, p') := receiver_body a buf p in
  f = Continue
  /\ latePackets p' = latePackets p
  /\ measurements p' = measurements p
  /\ transitProbes p' = transitProbes p
  /\ probesReceived p' = wrap64 (probesReceived p + 1).
Proof.
  intros Hs Hr Hu Hm.
  by rewrite (receiver_body_not_found a buf data p pkt Hs Hr Hu Hm).
Qed.

(** C4, as the code has it.  Take a decoded reply whose sequence number the
    registry holds, and a timeout whose value in nanoseconds fits an int64.
    The round-trip time is the int64 difference of the arrival time and
    the time stamp carried by the reply.  The reply is late exactly when
    that time is strictly above the timeout in nanoseconds.  A late reply
    advances the late counter and leaves the measurements alone; any other
    reply goes to [AddRecv] with its time stamp, its round-trip time and
    the measurement length, and leaves the late counter alone.  In both
    cases the entry is removed and the loop goes on. *)
Theorem receiver_classifies_reply (a : arrival) (buf data : list Z) (p : Prober M)
  (pkt : probe) (ts0 : Z) :
  stopped a = false -> read a = inl data ->
  unmarshal (conn_Read buf data) = inl pkt ->
  TransitProbes.m (transitProbes p) !! SequenceNumber pkt = Some ts0 ->
  0 <= TimeoutMS (cfg p) -> TimeoutMS (cfg p) * 1000000 < 2 ^ 63 ->
  let rtt := sub64 (now a) (TimeStamp pkt) in
  let '(f, _, p') := receiver_body a buf p in
  f = Continue
  /\ (is_int64 (now a - TimeStamp pkt) -> rtt = now a - TimeStamp pkt)
  /\ (timedOut p rtt = true <-> rtt > TimeoutMS (cfg p) * 1000000)
  /\ (rtt > TimeoutMS (cfg p) * 1000000 ->
      latePackets p' = wrap64 (latePackets p + 1)
      /\ measurements p' = measurements p)
  /\ (rtt <= TimeoutMS (cfg p) * 1000000 ->
      latePackets p' = latePackets p
      /\ measurements p'
         = AddRecv (TimeStamp pkt) (to_uint64 rtt) (MeasurementLengthMS (cfg p))
             (measurements p))
  /\ TransitProbes.m (transitProbes p')
     = delete (SequenceNumber pkt) (TransitProbes.m (transitProbes p))
  /\ probesReceived p' = wrap64 (probesReceived p + 1).
Proof.
  intros Hs Hr Hu Hm H0 Hfit rtt.
  rewrite (receiver_body_found a buf data p pkt ts0 Hs Hr Hu Hm).
  fold rtt.
  pose proof (timedOut_spec p rtt H0 Hfit) as Hlate.
  split; [reflexivity |]. split; [apply sub64_exact |]. split; [exact Hlate |].
  destruct (timedOut p rtt) eqn:Ht.
  - assert (rtt > TimeoutMS (cfg p) * 1000000) by (by apply Hlate).
    cbn. repeat split; try reflexivity; lia.
  - assert (~ rtt > TimeoutMS (cfg p) * 1000000)
      by (intros Hgt; apply Hlate in Hgt; discriminate).
    cbn. repeat split; try reflexivity; lia.
Qed.

End ReceiverFacts.

(** ** The receiver on concrete replies *)

Section ReceiverRuns.
Import Wire Probe Receiver Scenario.

Local Abbreviation body := (Receiver.receiver_body calls record_AddRecv).

Lemma reply_decodes :
  unmarshal (conn_Read (replicate 64 0) (marshal probe1 64)) = inl probe1.
Proof. vm_compute. reflexivity. Qed.

(** Timeout 500 ms, probe 1 in flight: its reply at 100 ms is a sample of
    10^8 ns, its reply at 600 ms is late. *)
Lemma receiver_classifies_reply_witness :
  (let r := body (reply 100000000) (replicate 64 0) (prober 500 in_flight) in
   latePackets r.2 = 0 /\ measurements r.2 = [(0, 100000000, 1000)])
  /\ (let r := body (reply 600000000) (replicate 64 0) (prober 500 in_flight) in
      latePackets r.2 = 1 /\ measurements r.2 = []).
Proof.
  assert (Hm : TransitProbes.m (transitProbes (prober 500 in_flight))
               !! SequenceNumber probe1 = Some 0) by apply lookup_insert_eq.
  assert (H0 : 0 <= TimeoutMS (cfg (prober 500 in_flight))) by (cbn; lia).
  assert (Hfit : TimeoutMS (cfg (prober 500 in_flight)) * 1000000 < 2 ^ 63)
    by (cbn; lia).
  split; intros r.
  - pose proof (receiver_classifies_reply calls record_AddRecv
                  (reply 100000000) (replicate 64 0) (marshal probe1 64)
                  (prober 500 in_flight) probe1 0
                  eq_refl eq_refl reply_decodes Hm H0 Hfit) as H.
    cbv zeta in H. fold r in H. destruct r as [[f b] p']. cbn [snd].
    destruct H as (_ & _ & _ & _ & Hrecv & _).
    destruct Hrecv as [Hl Hms]; [vm_compute; discriminate |].
    split; [exact Hl | rewrite Hms; vm_compute; reflexivity].
  - pose proof (receiver_classifies_reply calls record_AddRecv
                  (reply 600000000) (replicate 64 0) (marshal probe1 64)
                  (prober 500 in_flight) probe1 0
                  eq_refl eq_refl reply_decodes Hm H0 Hfit) as H.
    cbv zeta in H. fold r in H. destruct r as [[f b] p']. cbn [snd].
    destruct H as (_ & _ & _ & Hlate & _).
    destruct Hlate as [Hl Hms]; [vm_compute; reflexivity |].
    split; [rewrite Hl; vm_compute; reflexivity | exact Hms].
Defined.

(** C4 fails as stated.  With a timeout of 9223372036855 ms the uint64
    product with 10^6 is read as a negative int64: the reply to probe 1
    that arrives 10 ns after it was sent is counted late and never reaches
    [AddRecv], although 10 is not above 9223372036855 * 10^6. *)
Lemma huge_timeout_small_rtt_is_late :
  let p := prober hugeTimeoutMS in_flight in
  let r := body (reply 10) (replicate 64 0) p in
  sub64 10 (TimeStamp probe1) = 10
  /\ ~ (timedOut p 10 = true <-> 10 > TimeoutMS (cfg p) * 1000000)
  /\ latePackets r.2 = 1
  /\ measurements r.2 = [].
Proof.
  intros p r.
  split; [vm_compute; reflexivity |]. split.
  - intros [Hlate _].
    assert (Ht : timedOut p 10 = true) by (vm_compute; reflexivity).
    specialize (Hlate Ht). unfold p, hugeTimeoutMS in Hlate. cbn in Hlate. lia.
  - split; vm_compute; reflexivity.
Qed.

(** The registry is empty (the probe was reaped), the reply to probe 1
    comes at 600 ms. *)
Lemma receiver_unknown_sequence_witness :
  let p := prober 500 TransitProbes.newTransitProbes in
  let r := body (reply 600000000) (replicate 64 0) p in
  r.1.1 = Continue
  /\ latePackets r.2 = latePackets p
  /\ measurements r.2 = measurements p
  /\ transitProbes r.2 = transitProbes p
  /\ probesReceived r.2 = wrap64 (probesReceived p + 1).
Proof.
  intros p r.
  pose proof (receiver_unknown_sequence calls record_AddRecv
                (reply 600000000) (replicate 64 0) (marshal probe1 64) p probe1
                eq_refl eq_refl reply_decodes (lookup_empty _)) as H.
  fold r in H. destruct r as [[f b] p']. exact H.
Defined.

(** C5 fails as stated.  Timeout 500 ms; probe 1 was reaped, so the
    registry is empty; its reply comes at 600 ms.  The sequence number is
    not found, and the counter of received probes goes from 0 to 1. *)
Lemma unknown_sequence_is_counted :
  let p := prober 500 TransitProbes.newTransitProbes in
  let r := body (reply 600000000) (replicate 64 0) p in
  (TransitProbes.remove (SequenceNumber probe1) (transitProbes p)).1
  = Some (TransitProbes.SequenceNumberNotFound 1)
  /\ probesReceived p = 0
  /\ probesReceived r.2 = 1
  /\ probesReceived r.2 <> probesReceived p.
Proof.
  intros p r.
  assert (H1 : probesReceived r.2 = 1) by (vm_compute; reflexivity).
  split; [vm_compute; reflexivity |]. split; [reflexivity |].
  split; [exact H1 |]. rewrite H1. cbn. lia.
Qed.

End ReceiverRuns.

(** ** Address generation *)

Section AddressFacts.
Import Wire Net Config.

Lemma Size_CIDRMask (ones : Z) :
  0 <= ones <= 32 -> Size (CIDRMask_bytes 4 ones) = (ones, 32).
Proof.
  intros H. rewrite <- (Z2Nat.id ones) by lia.
  assert (Hk : (Z.to_nat ones <= 32)%nat) by lia.
  revert Hk. generalize (Z.to_nat ones). intros k Hk.
  do 33 (destruct k as [|k]; [vm_compute; reflexivity |]). lia.
Qed.

Lemma doubling (k : nat) :
  Nat.iter k (fun x => wrap32 (x * 2)) 1 = wrap32 (2 ^ Z.of_nat k).
Proof.
  induction k as [|k IH].
  - reflexivity.
  - rewrite Nat.iter_succ, IH. unfold wrap32.
    rewrite Z.mul_mod_idemp_l by lia.
    rewrite Nat2Z.inj_succ, Z.pow_succ_r by lia.
    f_equal. lia.
Qed.

(** The address count of a network whose mask has [ones] leading ones out
    of 32: the 32-bit value of 2^(32-ones). *)
Lemma maskAddrCount_CIDRMask (n : IPNet) (ones : Z) :
  0 <= ones <= 32 -> Mask n = CIDRMask_bytes 4 ones ->
  maskAddrCount n = wrap32 (2 ^ (32 - ones)).
Proof.
  intros H Hmask. unfold maskAddrCount. rewrite Hmask, Size_CIDRMask by exact H.
  destruct (Z.eqb_spec ones 32) as [-> | Hne]; [reflexivity |].
  rewrite doubling, Z2Nat.id by lia. reflexivity.
Qed.

(** The loop of [GenerateAddrs] fills the slots from [i] up to [c] and
    keeps those below [i], given at least [c - i] turns. *)
Lemma GenerateAddrs_loop_fills (turns : nat) (baseAddr c i : Z) (ret : list (list Z)) :
  0 <= i <= c -> c < 2 ^ 32 -> length ret = Z.to_nat c ->
  (Z.to_nat (c - i) <= turns)%nat ->
  GenerateAddrs_loop turns baseAddr c i ret
  = take (Z.to_nat i) ret
      ++ ((fun j => uint32Byte (wrap32 (baseAddr + j))) <$> seqZ i (c - i)).
Proof.
  revert i ret. induction turns as [|turns IH]; intros i ret Hi Hc Hlen Hturns.
  - assert (i = c) as -> by lia.
    rewrite Z.sub_diag. cbn. rewrite app_nil_r, take_ge by lia. reflexivity.
  - cbn [GenerateAddrs_loop]. destruct (Z.ltb_spec i c) as [Hlt | Hge].
    + assert (Hwrap : wrap32 (i + 1) = i + 1)
        by (apply wrap32_small; unfold is_uint32; lia).
      rewrite Hwrap, (Z.mod_small i c) by lia.
      rewrite IH by (rewrite ?length_insert; lia).
      replace (Z.to_nat (i + 1)) with (S (Z.to_nat i)) by lia.
      rewrite (take_S_r _ _ (uint32Byte (wrap32 (baseAddr + i))))
        by (apply list_lookup_insert_eq; lia).
      rewrite take_insert_ge by lia.
      rewrite (seqZ_cons i (c - i)) by lia.
      rewrite <- app_assoc, fmap_cons. cbn [app].
      replace (Z.succ i) with (i + 1) by lia.
      replace (Z.pred (c - i)) with (c - (i + 1)) by lia.
      reflexivity.
    + assert (i = c) as -> by lia.
      rewrite Z.sub_diag. cbn. rewrite app_nil_r, take_ge by lia. reflexivity.
Qed.

(** More turns than the count change nothing: the loop has ended. *)
Lemma GenerateAddrs_loop_turns (turns : nat) (baseAddr c : Z) :
  0 <= c < 2 ^ 32 -> (Z.to_nat c <= turns)%nat ->
  GenerateAddrs_loop turns baseAddr c 0 (replicate (Z.to_nat c) [])
  = GenerateAddrs_loop (Z.to_nat c) baseAddr c 0 (replicate (Z.to_nat c) []).
Proof.
  intros Hc Hturns.
  rewrite !GenerateAddrs_loop_fills by (rewrite ?length_replicate; lia).
  reflexivity.
Qed.

Lemma addrsOfNet_map (n : IPNet) :
  0 <= maskAddrCount n < 2 ^ 32 ->
  addrsOfNet n
  = (fun j => uint32Byte (wrap32 (getCIDRBase n + j))) <$> seqZ 0 (maskAddrCount n).
Proof.
  intros Hc. unfold addrsOfNet.
  rewrite GenerateAddrs_loop_fills by (rewrite ?length_replicate; lia).
  rewrite Z.sub_0_r. reflexivity.
Qed.

(** Four bytes read big-endian make a 32-bit value. *)
Lemma be_get_4 (ip : list Z) :
  length ip = 4%nat -> Forall is_byte ip -> is_uint32 (be_get ip).
Proof.
  intros Hlen Hb.
  destruct ip as [|a [|b [|c [|d [|? ?]]]]]; try discriminate.
  repeat match goal with H : Forall _ (_ :: _) |- _ => inversion H; clear H; subst end.
  unfold is_byte, is_uint32, be_get in *. cbn. lia.
Qed.

(** An aligned base leaves room for its whole block below 2^32. *)
Lemma aligned_block (base h j : Z) :
  0 <= h <= 32 -> 0 <= base < 2 ^ 32 -> base mod 2 ^ h = 0 ->
  0 <= j < 2 ^ h -> 0 <= base + j < 2 ^ 32.
Proof.
  intros Hh Hbase Hal Hj.
  assert (Hpos : 0 < 2 ^ h) by (apply Z.pow_pos_nonneg; lia).
  pose proof (Z.div_mod base (2 ^ h) ltac:(lia)) as Hdm.
  rewrite Hal, Z.add_0_r in Hdm.
  assert (Hsplit : 2 ^ 32 = 2 ^ h * 2 ^ (32 - h))
    by (rewrite <- Z.pow_add_r by lia; f_equal; lia).
  set (q := base / 2 ^ h) in *.
  assert (Hq : q < 2 ^ (32 - h)) by nia.
  nia.
Qed.

Lemma ipv4_net_spec (n : IPNet) (ones : Z) :
  ipv4_net n ones = true ->
  0 <= ones <= 32 /\ length (IP n) = 4%nat /\ Forall is_byte (IP n)
  /\ Mask n = CIDRMask_bytes 4 ones /\ be_get (IP n) mod 2 ^ (32 - ones) = 0.
Proof.
  unfold ipv4_net. rewrite !andb_true_iff, !Z.leb_le, Nat.eqb_eq, Z.eqb_eq.
  rewrite bool_decide_eq_true, forallb_forall.
  intros [[[[[H0 H32] Hlen] Hb] Hm] Hal].
  repeat split; try assumption.
  apply Forall_forall. intros b Hin. apply list_elem_of_In in Hin.
  specialize (Hb b Hin). apply andb_true_iff in Hb as [Hb0 Hb1].
  unfold is_byte. lia.
Qed.

End AddressFacts.

(** ** Validation and the address pools of a path *)

Section ConfigFacts.
Import Wire Net Config.

Variable ParseCIDR : string -> (list Z * IPNet) + string.

Local Abbreviation GenerateAddrs := (Config.GenerateAddrs ParseCIDR).
Local Abbreviation Validate := (Config.Validate ParseCIDR).
Local Abbreviation validateRouters := (Config.validateRouters ParseCIDR).
Local Abbreviation hopRouters := (Config.hopRouters ParseCIDR).
Local Abbreviation PathToProberHops := (Config.PathToProberHops ParseCIDR).

(** C10.  Let [addrRange] parse to an IPv4 network with [ones] leading mask
    bits.  For [0 < ones <= 32], [GenerateAddrs] returns 2^(32-ones)
    addresses, a single one for [ones = 32], and the address at index [i]
    is the four big-endian bytes of the base address plus [i].  For
    [ones = 0] the 32-bit count is 0 and [GenerateAddrs] returns the empty
    list. *)
Theorem GenerateAddrs_ipv4 (addrRange : string) (ip : list Z) (n : IPNet) (ones : Z) :
  ParseCIDR addrRange = inl (ip, n) -> ipv4_net n ones = true ->
  let base := be_get (IP n) in
  (0 < ones ->
   exists addrs,
     GenerateAddrs addrRange = Done addrs
     /\ Z.of_nat (length addrs) = 2 ^ (32 - ones)
     /\ (ones = 32 -> length addrs = 1%nat)
     /\ forall i, 0 <= i < 2 ^ (32 - ones) ->
                  addrs !! Z.to_nat i = Some (uint32Byte (base + i))
                  /\ be_get (uint32Byte (base + i)) = base + i)
  /\ (ones = 0 -> maskAddrCount n = 0 /\ GenerateAddrs addrRange = Done []).
Proof.
  intros Hparse Hnet base.
  apply ipv4_net_spec in Hnet as (Hones & Hlen & Hbytes & Hmask & Haligned).
  pose proof (maskAddrCount_CIDRMask n ones Hones Hmask) as Hcount.
  assert (Hbase : getCIDRBase n = base).
  { unfold getCIDRBase, uint32b. rewrite Hlen. cbn. by rewrite take_ge by lia. }
  pose proof (be_get_4 (IP n) Hlen Hbytes) as Hb32. fold base in Hb32, Haligned.
  unfold Config.GenerateAddrs. rewrite Hparse.
  split.
  - intros Hpos.
    assert (Hpow : 0 < 2 ^ (32 - ones) <= 2 ^ 31).
    { split; [apply Z.pow_pos_nonneg; lia | apply Z.pow_le_mono_r; lia]. }
    assert (Hc : maskAddrCount n = 2 ^ (32 - ones)).
    { rewrite Hcount. apply wrap32_small. unfold is_uint32. lia. }
    exists (addrsOfNet n). rewrite addrsOfNet_map by lia.
    rewrite Hc, Hbase, length_fmap, length_seqZ.
    split; [reflexivity |]. split; [lia |]. split.
    + intros ->. reflexivity.
    + intros i Hi.
      assert (Hin : 0 <= base + i < 2 ^ 32).
      { apply (aligned_block base (32 - ones) i); unfold is_uint32 in Hb32; lia. }
      split.
      * rewrite list_lookup_fmap, lookup_seqZ_lt by lia.
        cbn. rewrite Z2Nat.id, wrap32_small by (unfold is_uint32; lia).
        reflexivity.
      * unfold uint32Byte. rewrite be_get_put.
        apply Z.mod_small. cbn. lia.
  - intros ->.
    assert (Hc : maskAddrCount n = 0) by (rewrite Hcount; reflexivity).
    split; [exact Hc |].
    unfold addrsOfNet. rewrite Hc. reflexivity.
Qed.

Lemma routerExists_spec (c : Config) (needle : string) :
  routerExists c needle = true <-> exists r, r ∈ Routers c /\ Router.Name r = needle.
Proof.
  unfold routerExists. induction (Routers c) as [|r rs IH]; cbn.
  - split; [discriminate | intros (r & Hin & _); by apply elem_of_nil in Hin].
  - destruct (String.eqb_spec (Router.Name r) needle) as [Heq | Hne].
    + split; [intros _; exists r; split; [left | exact Heq] | reflexivity].
    + rewrite IH. split.
      * intros (r' & Hin & Hname). exists r'. split; [by right | exact Hname].
      * intros (r' & Hin & Hname). apply elem_of_cons in Hin as [-> | Hin];
          [contradiction | eauto].
Qed.

(** A hop that names no router makes [Validate] fail. *)
Lemma Validate_unknown_hop (c : Config) (p : Path.Path) (h : string) :
  p ∈ Paths c -> h ∈ Path.Hops p -> routerExists c h = false ->
  exists err, Validate c = Some (PathValidationFailed err).
Proof.
  intros Hp Hh Hex.
  assert (Hhops : forall name hops, h ∈ hops ->
                    exists err, validateHops c name hops = Some err).
  { intros name hops. induction hops as [|h' hs IH]; intros Hin.
    - by apply elem_of_nil in Hin.
    - cbn. destruct (routerExists c h') eqn:E; cbn; [| eauto].
      apply elem_of_cons in Hin as [-> | Hin]; [congruence | by apply IH]. }
  assert (Hpaths : exists err, validatePaths c = Some err).
  { unfold validatePaths. induction (Paths c) as [|p' ps IH].
    - by apply elem_of_nil in Hp.
    - cbn. destruct (validateHops c (Path.Name p') (Path.Hops p')) as [e|] eqn:E;
        [eauto |].
      apply elem_of_cons in Hp as [-> | Hp]; [| by apply IH].
      destruct (Hhops (Path.Name p') (Path.Hops p') Hh) as [e He]. congruence. }
  destruct Hpaths as [err Herr]. exists err.
  unfold Config.Validate. by rewrite Herr.
Qed.

(** A destination range that does not parse makes [Validate] fail. *)
Lemma Validate_bad_DstRange (c : Config) (r : Router.Router) (err : string) :
  r ∈ Routers c -> ParseCIDR (Router.DstRange r) = inr err ->
  exists e, Validate c = Some e.
Proof.
  intros Hr Hbad. unfold Config.Validate.
  destruct (validatePaths c) as [e|]; [eauto |].
  assert (Hrs : exists e, validateRouters c = Some e).
  { unfold Config.validateRouters. induction (Routers c) as [|r' rs IH].
    - by apply elem_of_nil in Hr.
    - cbn. destruct (ParseCIDR (Router.DstRange r')) as [v | e] eqn:E; [| eauto].
      apply elem_of_cons in Hr as [-> | Hr]; [congruence | by apply IH]. }
  destruct Hrs as [e He]. rewrite He. eauto.
Qed.

(** [validateRouters] looks at destination ranges only. *)
Lemma validateRouters_DstRange_only (c : Config) :
  (forall r, r ∈ Routers c -> exists v, ParseCIDR (Router.DstRange r) = inl v) ->
  validateRouters c = None.
Proof.
  unfold Config.validateRouters. induction (Routers c) as [|r rs IH]; intros Hall.
  - reflexivity.
  - cbn. destruct (Hall r) as [v Hv]; [by left |]. rewrite Hv.
    apply IH. intros r' Hin. apply Hall. by right.
Qed.

Lemma hopRouters_panics (r : Router.Router) (err : string) (routers : list Router.Router) :
  r ∈ routers -> ParseCIDR (Router.SrcRange r) = inr err ->
  forall res, exists e, hopRouters (Router.Name r) routers res = Panic e.
Proof.
  intros Hin Hbad. induction routers as [|r' rs IH]; intros res.
  - by apply elem_of_nil in Hin.
  - cbn [Config.hopRouters].
    destruct (String.eqb_spec (Router.Name r) (Router.Name r')) as [Hname | Hname];
      cbn [negb].
    + destruct (GenerateAddrs (Router.DstRange r')) as [dst | e] eqn:Hdst; [| eauto].
      destruct (GenerateAddrs (Router.SrcRange r')) as [src | e] eqn:Hsrc; [| eauto].
      apply elem_of_cons in Hin as [-> | Hin]; [| by apply IH].
      unfold Config.GenerateAddrs in Hsrc. rewrite Hbad in Hsrc. discriminate.
    + apply elem_of_cons in Hin as [-> | Hin]; [contradiction | by apply IH].
Qed.

(** C8 fails on the code.  Let every hop of every path name a router and
    every destination range parse, and let one router have a source range
    that does not parse.  [Validate] returns [nil], and building the hops of
    a path through that router panics in [GenerateAddrs]. *)
Theorem Validate_passes_bad_SrcRange (c : Config) (r : Router.Router)
  (pathCfg : Path.Path) (err : string) :
  validatePaths c = None ->
  (forall r', r' ∈ Routers c -> exists v, ParseCIDR (Router.DstRange r') = inl v) ->
  r ∈ Routers c -> ParseCIDR (Router.SrcRange r) = inr err ->
  Router.Name r ∈ Path.Hops pathCfg ->
  Validate c = None /\ exists e, PathToProberHops c pathCfg = Panic e.
Proof.
  intros Hpaths Hdst Hr Hbad Hhop. split.
  - unfold Config.Validate. by rewrite Hpaths, (validateRouters_DstRange_only c Hdst).
  - unfold Config.PathToProberHops. generalize (@nil Hop.Hop).
    induction (Path.Hops pathCfg) as [|h hs IH]; intros res.
    + by apply elem_of_nil in Hhop.
    + cbn [Config.PathToProberHops_loop].
      destruct (hopRouters h (Routers c) res) as [res' | e] eqn:E; [| eauto].
      apply elem_of_cons in Hhop as [<- | Hhop]; [| by apply IH].
      destruct (hopRouters_panics r err (Routers c) Hr Hbad res) as [e He].
      congruence.
Qed.

End ConfigFacts.

(** ** Configurations and ranges on concrete input *)

Section ConfigRuns.
Import Wire Net Config Scenario.

(** The range 10.0.0.0/30 gives the four addresses 10.0.0.0 to 10.0.0.3;
    the range 0.0.0.0/0 gives none. *)
Lemma GenerateAddrs_ipv4_witness :
  GenerateAddrs parseCIDR "10.0.0.0/30"
  = Done [[10; 0; 0; 0]; [10; 0; 0; 1]; [10; 0; 0; 2]; [10; 0; 0; 3]]
  /\ GenerateAddrs parseCIDR "0.0.0.0/0" = Done [].
Proof.
  split.
  - destruct (GenerateAddrs_ipv4 parseCIDR "10.0.0.0/30" [10; 0; 0; 0]
                (mkIPNet [10; 0; 0; 0] [255; 255; 255; 252]) 30 eq_refl eq_refl)
      as [Hpos _].
    destruct Hpos as (addrs & -> & Hlen & _ & Hith); [lia |].
    pose proof (Hith 0 ltac:(cbn; lia)) as [H0 _].
    pose proof (Hith 1 ltac:(cbn; lia)) as [H1 _].
    pose proof (Hith 2 ltac:(cbn; lia)) as [H2 _].
    pose proof (Hith 3 ltac:(cbn; lia)) as [H3 _].
    assert (Hlen4 : length addrs = 4%nat) by (change (2 ^ (32 - 30)) with 4 in Hlen; lia).
    destruct addrs as [|a0 [|a1 [|a2 [|a3 [|a4 rest]]]]]; try discriminate Hlen4.
    vm_compute in H0, H1, H2, H3. congruence.
  - destruct (GenerateAddrs_ipv4 parseCIDR "0.0.0.0/0" [0; 0; 0; 0]
                (mkIPNet [0; 0; 0; 0] [0; 0; 0; 0]) 0 eq_refl eq_refl)
      as [_ Hzero].
    exact (proj2 (Hzero eq_refl)).
Defined.

(** On [config1], whose router has the source range "not-a-range",
    [Validate] returns [nil] and [PathToProberHops] panics. *)
Lemma Validate_passes_bad_SrcRange_witness :
  Validate parseCIDR config1 = None
  /\ exists e, PathToProberHops parseCIDR config1 path1 = Panic e.
Proof.
  apply (Validate_passes_bad_SrcRange parseCIDR config1 router1 path1
           "invalid CIDR address: not-a-range").
  - reflexivity.
  - intros r' Hin. apply list_elem_of_singleton in Hin as ->. eexists. reflexivity.
  - apply list_elem_of_singleton. reflexivity.
  - reflexivity.
  - apply list_elem_of_singleton. reflexivity.
Defined.

(** The same run, evaluated. *)
Lemma config1_validates_then_panics :
  Validate parseCIDR config1 = None
  /\ PathToProberHops parseCIDR config1 path1
     = Panic "invalid CIDR address: not-a-range"
  /\ GenerateAddrs parseCIDR (Router.SrcRange router1)
     = Panic "invalid CIDR address: not-a-range".
Proof. vm_compute. repeat split. Qed.

End ConfigRuns.

(** * Further properties *)

(** ** The transit registry: how the operations compose *)

Section TransitProbesMore.
Import Probe TransitProbes.

(** X1.  [remove] undoes [add]: removing the sequence number of a probe
    right after adding it returns [nil] and leaves the registry without
    that number, which is the registry before the [add] whenever the
    number was not yet in flight. *)
Theorem remove_after_add (p : probe) (t : transitProbes) :
  (remove (SequenceNumber p) (add p t)).1 = None
  /\ m (remove (SequenceNumber p) (add p t)).2 = delete (SequenceNumber p) (m t)
  /\ (m t !! SequenceNumber p = None ->
      remove (SequenceNumber p) (add p t) = (None, t)).
Proof.
  assert (Hin : m (add p t) !! SequenceNumber p = Some (TimeStamp p))
    by apply lookup_insert_eq.
  rewrite (remove_present _ _ _ Hin). cbn [fst snd m add].
  rewrite delete_insert_eq.
  split; [reflexivity |]. split; [reflexivity |].
  intros Hfresh. rewrite delete_id by exact Hfresh. by destruct t.
Qed.

Lemma remove_after_add_witness :
  let t := add (mkProbe 1 5) newTransitProbes in
  remove 2 (add (mkProbe 2 9) t) = (None, t).
Proof.
  intros t.
  destruct (remove_after_add (mkProbe 2 9) t) as (_ & _ & Hfresh).
  apply Hfresh. unfold t, add. cbn. rewrite lookup_insert_ne by lia.
  apply lookup_empty.
Defined.

(** X2.  A sequence number is given out once: after a [remove s] that
    returned [nil], the next [remove s] returns the not-found error. *)
Theorem remove_succeeds_once (s : Z) (t : transitProbes) :
  (remove s t).1 = None ->
  remove s (remove s t).2 = (Some (SequenceNumberNotFound s), (remove s t).2).
Proof.
  intros Hok.
  destruct (m t !! s) as [ts|] eqn:Hin.
  - rewrite (remove_present s ts t Hin). cbn [snd].
    apply remove_absent. cbn. apply lookup_delete_eq.
  - rewrite (remove_absent s t Hin) in Hok. discriminate.
Qed.

Lemma remove_succeeds_once_witness :
  let t := add (mkProbe 1 5) newTransitProbes in
  remove 1 (remove 1 t).2 = (Some (SequenceNumberNotFound 1), (remove 1 t).2).
Proof.
  intros t. apply (remove_succeeds_once 1 t).
  rewrite (remove_present 1 5 t); [reflexivity |].
  unfold t, add. cbn. apply lookup_insert_eq.
Defined.

(** X3.  Two probes added under one sequence number leave one entry, the
    later one: the registry is the same as if only the second had been
    added, and the earlier send time is gone. *)
Theorem add_same_sequence_overwrites (p1 p2 : probe) (t : transitProbes) :
  SequenceNumber p1 = SequenceNumber p2 ->
  add p2 (add p1 t) = add p2 t
  /\ m (add p2 (add p1 t)) !! SequenceNumber p1 = Some (TimeStamp p2)
  /\ size (m (add p2 (add p1 t))) = size (m (add p1 t)).
Proof.
  intros Hs. unfold add. cbn [m]. rewrite Hs, insert_insert_eq.
  split; [reflexivity |]. split; [apply lookup_insert_eq |].
  destruct (m t !! SequenceNumber p2) as [ts|] eqn:E.
  - rewrite !map_size_insert_Some; eauto.
  - by rewrite !map_size_insert_None.
Qed.

Lemma add_same_sequence_overwrites_witness :
  let t := newTransitProbes in
  add (mkProbe 7 20) (add (mkProbe 7 10) t) = add (mkProbe 7 20) t
  /\ m (add (mkProbe 7 20) (add (mkProbe 7 10) t)) !! 7 = Some 20
  /\ size (m (add (mkProbe 7 20) (add (mkProbe 7 10) t)))
     = size (m (add (mkProbe 7 10) t)).
Proof.
  intros t. apply (add_same_sequence_overwrites (mkProbe 7 10) (mkProbe 7 20) t).
  reflexivity.
Defined.

(** X4.  What [getLt] returns is part of the registry, and it grows with
    the bound: every entry returned for a bound is returned for every
    larger bound. *)
Theorem getLt_grows_with_bound (lt lt' : Z) (t : transitProbes) :
  (getLt lt t).1 ⊆ m t
  /\ (lt <= lt' -> (getLt lt t).1 ⊆ (getLt lt' t).1).
Proof.
  split.
  - apply map_subseteq_spec. intros s ts H. by apply getLt_lookup in H as [H _].
  - intros Hle. apply map_subseteq_spec. intros s ts H.
    apply getLt_lookup in H as [H Hts]. apply getLt_lookup. split; [exact H | lia].
Qed.

Lemma getLt_grows_with_bound_witness :
  let t := add (mkProbe 2 9) (add (mkProbe 1 5) newTransitProbes) in
  (getLt 6 t).1 ⊆ (getLt 10 t).1.
Proof.
  intros t. destruct (getLt_grows_with_bound 6 10 t) as [_ H]. apply H. lia.
Defined.

(** X5.  A sequence number that was removed is never returned by a later
    sweep, and the removal changes nothing else of what the sweep returns:
    [getLt] after [remove s] gives [getLt] before it, less [s]. *)
Theorem getLt_after_remove (lt s : Z) (t : transitProbes) :
  (getLt lt (remove s t).2).1 = delete s (getLt lt t).1.
Proof.
  apply map_eq. intros k. apply option_eq. intros ts.
  rewrite getLt_lookup, lookup_delete_Some, getLt_lookup.
  destruct (m t !! s) as [ts0|] eqn:Hin.
  - rewrite (remove_present s ts0 t Hin). cbn [snd m].
    rewrite lookup_delete_Some. tauto.
  - rewrite (remove_absent s t Hin). cbn [snd].
    split; [| tauto].
    intros [Hk Hts]. split; [| by split]. intros ->. congruence.
Qed.

End TransitProbesMore.

(** ** The receiver loop over many arrivals *)

Section ReceiverMore.
Import Wire Probe Receiver.

Variable M : Type.
Variable AddRecv : Z -> Z -> Z -> M -> M.

Local Abbreviation receiver_body := (Receiver.receiver_body M AddRecv).
Local Abbreviation receiver_loop := (Receiver.receiver_loop M AddRecv).

(** What every turn keeps, whatever arrives: the configuration, the MTU
    and the length of the buffer stay, and the registry loses at most
    entries. *)
Lemma receiver_body_keeps (a : arrival) (buf : list Z) (p : Prober M) :
  let '(_, buf', p') := receiver_body a buf p in
  cfg p' = cfg p /\ mtu p' = mtu p /\ length buf' = length buf
  /\ TransitProbes.m (transitProbes p') ⊆ TransitProbes.m (transitProbes p).
Proof.
  destruct (stopped a) eqn:Hs.
  { by rewrite receiver_body_stopped. }
  destruct (read a) as [data | e] eqn:Hr.
  2:{ by rewrite (receiver_body_read_error M AddRecv a buf p e Hs Hr). }
  destruct (unmarshal (conn_Read buf data)) as [pkt | e] eqn:Hu.
  2:{ rewrite (receiver_body_malformed M AddRecv a buf data p e Hs Hr Hu).
      by rewrite length_conn_Read. }
  destruct (TransitProbes.m (transitProbes p) !! SequenceNumber pkt) as [ts0|] eqn:Hm.
  - rewrite (receiver_body_found M AddRecv a buf data p pkt ts0 Hs Hr Hu Hm).
    rewrite length_conn_Read.
    destruct (timedOut p _); cbn; repeat split; try reflexivity; apply delete_subseteq.
  - rewrite (receiver_body_not_found M AddRecv a buf data p pkt Hs Hr Hu Hm).
    by rewrite length_conn_Read.
Qed.

(** A turn that does not return has read one datagram and counted it. *)
Lemma receiver_body_counts (a : arrival) (buf : list Z) (p : Prober M) :
  let '(f, _, p') := receiver_body a buf p in
  f = Continue -> probesReceived p' = wrap64 (probesReceived p + 1).
Proof.
  destruct (stopped a) eqn:Hs.
  { by rewrite receiver_body_stopped. }
  destruct (read a) as [data | e] eqn:Hr.
  2:{ by rewrite (receiver_body_read_error M AddRecv a buf p e Hs Hr). }
  destruct (unmarshal (conn_Read buf data)) as [pkt | e] eqn:Hu.
  2:{ by rewrite (receiver_body_malformed M AddRecv a buf data p e Hs Hr Hu). }
  destruct (TransitProbes.m (transitProbes p) !! SequenceNumber pkt) as [ts0|] eqn:Hm.
  - rewrite (receiver_body_found M AddRecv a buf data p pkt ts0 Hs Hr Hu Hm).
    by destruct (timedOut p _).
  - by rewrite (receiver_body_not_found M AddRecv a buf data p pkt Hs Hr Hu Hm).
Qed.


Lemma receiver_loop_counts_from (arrivals : list arrival) (buf buf' : list Z)
  (p p' : Prober M) :
  receiver_loop arrivals buf p = Looping buf' p' ->
  probesReceived p' = wrap64 (probesReceived p + Z.of_nat (length arrivals))
  \/ (arrivals = [] /\ p' = p).
Proof.
  revert buf p. induction arrivals as [|a rest IH]; intros buf p Hrun.
  - right. cbn in Hrun. by injection Hrun as _ <-.
  - left. cbn [Receiver.receiver_loop] in Hrun.
    pose proof (receiver_body_counts a buf p) as Hc.
    destruct (receiver_body a buf p) as [[[|] buf1] p1]; [discriminate |].
    specialize (Hc eq_refl).
    destruct (IH buf1 p1 Hrun) as [Hn | [-> ->]].
    + rewrite Hn, Hc. unfold wrap64.
      rewrite Zplus_mod_idemp_l. f_equal. cbn [length]. lia.
    + rewrite Hc. f_equal.
Qed.

(** X7.  While the loop has not returned, the counter of received probes
    has advanced by one for each arrival, modulo 2^64: every datagram read
    is counted, whatever becomes of it. *)
Theorem receiver_loop_counts (arrivals : list arrival) (buf buf' : list Z)
  (p p' : Prober M) :
  is_uint64 (probesReceived p) ->
  receiver_loop arrivals buf p = Looping buf' p' ->
  probesReceived p' = wrap64 (probesReceived p + Z.of_nat (length arrivals)).
Proof.
  intros Hrange Hrun.
  destruct (receiver_loop_counts_from arrivals buf buf' p p' Hrun) as [H | [-> ->]];
    [exact H |].
  cbn. rewrite Z.add_0_r. symmetry. by apply wrap64_small.
Qed.

(** X8.  The receiver never adds to the registry and never touches the
    configuration: after any arrivals, returned or not, the registry is
    part of the one it started with, and the configuration and the MTU
    are unchanged. *)
Theorem receiver_loop_keeps (arrivals : list arrival) (buf : list Z) (p : Prober M) :
  let p' := reached (receiver_loop arrivals buf p) in
  cfg p' = cfg p /\ mtu p' = mtu p
  /\ TransitProbes.m (transitProbes p') ⊆ TransitProbes.m (transitProbes p).
Proof.
  revert buf p. induction arrivals as [|a rest IH]; intros buf p.
  - cbn. repeat split; reflexivity.
  - cbn [Receiver.receiver_loop].
    pose proof (receiver_body_keeps a buf p) as Hk.
    destruct (receiver_body a buf p) as [[[|] buf1] p1].
    + cbn. tauto.
    + destruct Hk as (Hc & Hm & _ & Hs).
      destruct (IH buf1 p1) as (Hc' & Hm' & Hs').
      cbv zeta. rewrite Hc', Hm', Hc, Hm.
      repeat split; try reflexivity. by etrans.
Qed.

(** X9.  A reply is counted at most once.  When a turn has processed a
    datagram that decodes to some sequence number, a following datagram
    that decodes to the same number changes neither the late counter nor
    the measurements nor the registry. *)
Theorem duplicate_reply_ignored (a1 a2 : arrival) (buf data1 data2 : list Z)
  (p : Prober M) (pkt1 pkt2 : probe) :
  stopped a1 = false -> read a1 = inl data1 ->
  unmarshal (conn_Read buf data1) = inl pkt1 ->
  stopped a2 = false -> read a2 = inl data2 ->
  unmarshal (conn_Read (conn_Read buf data1) data2) = inl pkt2 ->
  SequenceNumber pkt2 = SequenceNumber pkt1 ->
  let '(_, buf1, p1) := receiver_body a1 buf p in
  let '(f2, _, p2) := receiver_body a2 buf1 p1 in
  f2 = Continue
  /\ latePackets p2 = latePackets p1
  /\ measurements p2 = measurements p1
  /\ transitProbes p2 = transitProbes p1.
Proof.
  intros Hs1 Hr1 Hu1 Hs2 Hr2 Hu2 Hseq.
  assert (Hgone : forall p1 : Prober M,
             TransitProbes.m (transitProbes p1) !! SequenceNumber pkt1 = None ->
             let '(f2, _, p2) := receiver_body a2 (conn_Read buf data1) p1 in
             f2 = Continue /\ latePackets p2 = latePackets p1
             /\ measurements p2 = measurements p1
             /\ transitProbes p2 = transitProbes p1).
  { intros p1 Hnone. rewrite <- Hseq in Hnone.
    by rewrite (receiver_body_not_found M AddRecv a2 _ data2 p1 pkt2 Hs2 Hr2 Hu2 Hnone). }
  destruct (TransitProbes.m (transitProbes p) !! SequenceNumber pkt1) as [ts0|] eqn:Hm.
  - rewrite (receiver_body_found M AddRecv a1 buf data1 p pkt1 ts0 Hs1 Hr1 Hu1 Hm).
    destruct (timedOut p _); apply Hgone; cbn; apply lookup_delete_eq.
  - rewrite (receiver_body_not_found M AddRecv a1 buf data1 p pkt1 Hs1 Hr1 Hu1 Hm).
    apply Hgone. exact Hm.
Qed.

Lemma conn_Read_short (buf data : list Z) :
  (length data <= length buf)%nat ->
  conn_Read buf (data ++ drop (length data) buf) = conn_Read buf data.
Proof.
  intros Hle. unfold conn_Read.
  rewrite length_app, length_drop.
  replace (length data + (length buf - length data))%nat with (length buf) by lia.
  rewrite (take_ge data) by lia.
  rewrite (take_ge (data ++ _)) by (rewrite length_app, length_drop; lia).
  rewrite (drop_ge buf (length buf)) by lia.
  by rewrite app_nil_r.
Qed.

Lemma conn_Read_long (buf data : list Z) :
  conn_Read buf (take (length buf) data) = conn_Read buf data.
Proof.
  unfold conn_Read. rewrite take_take, Nat.min_id, length_take.
  destruct (Nat.le_gt_cases (length buf) (length data)) as [Hle | Hgt].
  - rewrite Nat.min_l by lia. by rewrite !drop_ge by lia.
  - by rewrite Nat.min_r by lia.
Qed.

(** X10.  The receiver decodes the whole buffer, not the bytes that the
    read delivered.  A datagram shorter than the buffer is processed
    exactly as the datagram made of it and of the bytes that the buffer
    held behind it from earlier reads; a datagram longer than the buffer is
    processed exactly as its first [length buf] bytes. *)
Theorem receiver_decodes_whole_buffer (at_ns : Z) (buf data : list Z) (p : Prober M) :
  receiver_body (mkArrival false (inl data) at_ns) buf p
  = receiver_body (mkArrival false (inl (take (length buf) data)) at_ns) buf p
  /\ ((length data <= length buf)%nat ->
      receiver_body (mkArrival false (inl data) at_ns) buf p
      = receiver_body
          (mkArrival false (inl (data ++ drop (length data) buf)) at_ns) buf p).
Proof.
  split.
  - unfold Receiver.receiver_body. cbn [stopped read now].
    by rewrite conn_Read_long.
  - intros Hle. unfold Receiver.receiver_body. cbn [stopped read now].
    by rewrite conn_Read_short.
Qed.

End ReceiverMore.

(** ** The receiver at the edges of its arithmetic *)

Section ReceiverEdges.
Import Wire Probe Receiver.

Variable M : Type.
Variable AddRecv : Z -> Z -> Z -> M -> M.

Local Abbreviation receiver_body := (Receiver.receiver_body M AddRecv).
Local Abbreviation receiver_loop := (Receiver.receiver_loop M AddRecv).

(** X11.  A reply whose time stamp lies after the arrival time is never
    late: its negative round-trip time is below every timeout that fits an
    int64, and it reaches [AddRecv] converted to uint64, that is, as
    2^64 + (now - time stamp). *)
Theorem reply_from_the_future (a : arrival) (buf data : list Z) (p : Prober M)
  (pkt : probe) (ts0 : Z) :
  stopped a = false -> read a = inl data ->
  unmarshal (conn_Read buf data) = inl pkt ->
  TransitProbes.m (transitProbes p) !! SequenceNumber pkt = Some ts0 ->
  0 <= TimeoutMS (cfg p) -> TimeoutMS (cfg p) * 1000000 < 2 ^ 63 ->
  - 2 ^ 63 <= now a - TimeStamp pkt < 0 ->
  let '(_, _, p') := receiver_body a buf p in
  latePackets p' = latePackets p
  /\ measurements p'
     = AddRecv (TimeStamp pkt) (2 ^ 64 + (now a - TimeStamp pkt))
         (MeasurementLengthMS (cfg p)) (measurements p).
Proof.
  intros Hs Hr Hu Hm H0 Hfit Hneg.
  rewrite (receiver_body_found M AddRecv a buf data p pkt ts0 Hs Hr Hu Hm).
  rewrite sub64_exact by (unfold is_int64; lia).
  destruct (timedOut p (now a - TimeStamp pkt)) eqn:Ht.
  - apply (timedOut_spec M p _ H0 Hfit) in Ht. lia.
  - cbn. split; [reflexivity |]. f_equal.
    unfold to_uint64, wrap64. symmetry.
    apply Z.mod_unique with (q := -1); lia.
Qed.

(** X12.  A timeout whose nanosecond value fits a uint64 but not an int64
    (9223372036855 ms to 18446744073709 ms) is compared as the negative
    number [TimeoutMS * 10^6 - 2^64]: every round-trip time from 0 up counts
    as timed out. *)
Theorem timedOut_beyond_int64 (p : Prober M) (s : Z) :
  2 ^ 63 <= TimeoutMS (cfg p) * 1000000 < 2 ^ 64 ->
  (timedOut p s = true <-> s > TimeoutMS (cfg p) * 1000000 - 2 ^ 64)
  /\ (0 <= s -> timedOut p s = true).
Proof.
  intros Hrange.
  assert (Hiff : timedOut p s = true <-> s > TimeoutMS (cfg p) * 1000000 - 2 ^ 64).
  { unfold timedOut, msToNS.
    rewrite wrap64_small by (unfold is_uint64; lia).
    unfold to_int64.
    destruct (Z.ltb_spec (TimeoutMS (cfg p) * 1000000) (2 ^ 63)); [lia |].
    rewrite Z.ltb_lt. lia. }
  split; [exact Hiff |]. intros Hs. apply Hiff. lia.
Qed.

(** *** Every claimed entry is accounted for once *)

Section Accounting.
(** A measurement store in which every [AddRecv] adds one sample. *)
Variable samples : M -> nat.
Hypothesis AddRecv_adds_one :
  forall ts rtt len ms, samples (AddRecv ts rtt len ms) = S (samples ms).

Lemma wrap64_range (x : Z) : is_uint64 (wrap64 x).
Proof. unfold is_uint64, wrap64. apply Z.mod_pos_bound. lia. Qed.

Lemma receiver_body_accounts (a : arrival) (buf : list Z) (p : Prober M) :
  is_uint64 (latePackets p) ->
  let '(_, _, p') := receiver_body a buf p in
  exists late recv : nat,
    latePackets p' = wrap64 (latePackets p + Z.of_nat late)
    /\ samples (measurements p') = (samples (measurements p) + recv)%nat
    /\ size (TransitProbes.m (transitProbes p))
       = (size (TransitProbes.m (transitProbes p')) + late + recv)%nat.
Proof.
  intros Hrange.
  assert (Hsame : latePackets p = wrap64 (latePackets p + Z.of_nat 0))
    by (cbn; rewrite Z.add_0_r; symmetry; by apply wrap64_small).
  destruct (stopped a) eqn:Hs.
  { rewrite receiver_body_stopped by exact Hs. exists O, O. split; [exact Hsame | lia]. }
  destruct (read a) as [data | e] eqn:Hr.
  2:{ rewrite (receiver_body_read_error M AddRecv a buf p e Hs Hr).
      exists O, O. split; [exact Hsame | lia]. }
  destruct (unmarshal (conn_Read buf data)) as [pkt | e] eqn:Hu.
  2:{ rewrite (receiver_body_malformed M AddRecv a buf data p e Hs Hr Hu).
      exists O, O. split; [exact Hsame | cbn; lia]. }
  destruct (TransitProbes.m (transitProbes p) !! SequenceNumber pkt) as [ts0|] eqn:Hm.
  - rewrite (receiver_body_found M AddRecv a buf data p pkt ts0 Hs Hr Hu Hm).
    assert (Hsize : size (TransitProbes.m (transitProbes p))
                    = S (size (delete (SequenceNumber pkt)
                                 (TransitProbes.m (transitProbes p))))).
    { rewrite map_size_delete, Hm.
      assert (size (TransitProbes.m (transitProbes p)) <> O).
      { intros H0. apply map_size_empty_inv in H0. rewrite H0, lookup_empty in Hm.
        discriminate. }
      lia. }
    destruct (timedOut p _).
    + exists 1%nat, O. cbn. split; [reflexivity |]. rewrite Hsize. lia.
    + exists O, 1%nat. cbn. split; [exact Hsame |].
      rewrite AddRecv_adds_one, Hsize. lia.
  - rewrite (receiver_body_not_found M AddRecv a buf data p pkt Hs Hr Hu Hm).
    exists O, O. split; [exact Hsame | cbn; lia].
Qed.

(** X13.  Over any run of the loop, the entries that left the registry
    are exactly the replies counted late plus the samples handed to
    [AddRecv]: no entry is dropped unaccounted and none is counted twice. *)
Theorem receiver_accounts_each_entry_once (arrivals : list arrival) (buf : list Z)
  (p : Prober M) :
  is_uint64 (latePackets p) ->
  let p' := reached (receiver_loop arrivals buf p) in
  exists late recv : nat,
    latePackets p' = wrap64 (latePackets p + Z.of_nat late)
    /\ samples (measurements p') = (samples (measurements p) + recv)%nat
    /\ size (TransitProbes.m (transitProbes p))
       = (size (TransitProbes.m (transitProbes p')) + late + recv)%nat.
Proof.
  revert buf p. induction arrivals as [|a rest IH]; intros buf p Hrange.
  - cbn. exists O, O. cbn. rewrite Z.add_0_r.
    split; [symmetry; by apply wrap64_small | lia].
  - cbn [Receiver.receiver_loop].
    pose proof (receiver_body_accounts a buf p Hrange) as Hb.
    destruct (receiver_body a buf p) as [[[|] buf1] p1]; [exact Hb |].
    destruct Hb as (l1 & r1 & Hl1 & Hr1 & Hs1).
    assert (Hrange1 : is_uint64 (latePackets p1)) by (rewrite Hl1; apply wrap64_range).
    destruct (IH buf1 p1 Hrange1) as (l2 & r2 & Hl2 & Hr2 & Hs2).
    exists (l1 + l2)%nat, (r1 + r2)%nat. cbv zeta.
    split; [| split; lia].
    rewrite Hl2, Hl1. unfold wrap64. rewrite Zplus_mod_idemp_l. f_equal. lia.
Qed.

End Accounting.

End ReceiverEdges.

(** ** The further receiver properties on concrete runs *)

Section ReceiverMoreRuns.
Import Wire Probe Receiver Scenario.

Local Abbreviation body := (Receiver.receiver_body calls record_AddRecv).
Local Abbreviation loop := (Receiver.receiver_loop calls record_AddRecv).

(** Two replies to probe 1, at 100 ms and at 200 ms: two datagrams read. *)
Lemma receiver_loop_counts_witness :
  exists buf' p',
    loop [reply 100000000; reply 200000000] (replicate 64 0) (prober 500 in_flight)
    = Looping buf' p'
    /\ probesReceived p' = 2.
Proof.
  do 2 eexists. split; [vm_compute; reflexivity |].
  etrans.
  - eapply (receiver_loop_counts calls record_AddRecv
              [reply 100000000; reply 200000000] (replicate 64 0) _
              (prober 500 in_flight)).
    + unfold is_uint64. cbn. lia.
    + vm_compute. reflexivity.
  - vm_compute. reflexivity.
Defined.

(** The reply to probe 1 at 100 ms is a sample; the same reply again at
    200 ms changes nothing but the counter of received probes. *)
Lemma duplicate_reply_ignored_witness :
  let '(_, buf1, p1) := body (reply 100000000) (replicate 64 0) (prober 500 in_flight) in
  let '(f2, _, p2) := body (reply 200000000) buf1 p1 in
  f2 = Continue
  /\ latePackets p2 = latePackets p1
  /\ measurements p2 = measurements p1
  /\ transitProbes p2 = transitProbes p1.
Proof.
  apply (duplicate_reply_ignored calls record_AddRecv
           (reply 100000000) (reply 200000000) (replicate 64 0)
           (marshal probe1 64) (marshal probe1 64) (prober 500 in_flight)
           probe1 probe1);
    try reflexivity; vm_compute; reflexivity.
Defined.

(** A datagram of three bytes read into a buffer that holds the reply to
    probe 1 is processed as those three bytes followed by bytes 3 to 63 of
    that reply. *)
Lemma receiver_decodes_whole_buffer_witness :
  body (mkArrival false (inl [0; 0; 0]) 7) (marshal probe1 64) (prober 500 in_flight)
  = body (mkArrival false (inl ([0; 0; 0] ++ drop 3 (marshal probe1 64))) 7)
      (marshal probe1 64) (prober 500 in_flight).
Proof.
  apply (proj2 (receiver_decodes_whole_buffer calls record_AddRecv 7
                  (marshal probe1 64) [0; 0; 0] (prober 500 in_flight))).
  vm_compute. lia.
Defined.

(** A reply for sequence number 1 that carries time stamp 1000 and arrives
    at clock value 10: not late, and the sample is 2^64 - 990. *)
Lemma reply_from_the_future_witness :
  let a := mkArrival false (inl (marshal (mkProbe 1 1000) 64)) 10 in
  let '(_, _, p') := body a (replicate 64 0) (prober 500 in_flight) in
  latePackets p' = latePackets (prober 500 in_flight)
  /\ measurements p'
     = record_AddRecv 1000 (2 ^ 64 + (10 - 1000)) 1000
         (measurements (prober 500 in_flight)).
Proof.
  apply (reply_from_the_future calls record_AddRecv
           (mkArrival false (inl (marshal (mkProbe 1 1000) 64)) 10)
           (replicate 64 0) (marshal (mkProbe 1 1000) 64) (prober 500 in_flight)
           (mkProbe 1 1000) 0);
    try reflexivity; try (vm_compute; reflexivity); cbn; lia.
Defined.

(** With the timeout of 9223372036855 ms a round-trip time of 0 is timed
    out. *)
Lemma timedOut_beyond_int64_witness :
  timedOut (prober hugeTimeoutMS in_flight) 0 = true.
Proof.
  destruct (timedOut_beyond_int64 calls (prober hugeTimeoutMS in_flight) 0) as [_ H].
  - unfold hugeTimeoutMS. cbn. lia.
  - apply H. lia.
Defined.

(** Probe 1 in flight, its reply at 100 ms and again at 600 ms: one entry
    left the registry, and it is one sample. *)
Lemma receiver_accounts_each_entry_once_witness :
  let p := prober 500 in_flight in
  let p' := reached (loop [reply 100000000; reply 600000000] (replicate 64 0) p) in
  exists late recv : nat,
    latePackets p' = wrap64 (latePackets p + Z.of_nat late)
    /\ length (measurements p') = (length (measurements p) + recv)%nat
    /\ size (TransitProbes.m (transitProbes p))
       = (size (TransitProbes.m (transitProbes p')) + late + recv)%nat.
Proof.
  intros p.
  apply (receiver_accounts_each_entry_once calls record_AddRecv (@length _)).
  - intros ts rtt len ms. unfold record_AddRecv. rewrite length_app. cbn. lia.
  - unfold is_uint64. cbn. lia.
Defined.

End ReceiverMoreRuns.

(** ** Address arithmetic *)

Section AddressMore.
Import Wire Net Config.

(** X14.  [uint32Byte] and [uint32b] are inverse to each other: a uint32
    written as four bytes reads back as itself, and four bytes read as a
    uint32 are written back as themselves. *)
Theorem uint32_bytes_round_trip :
  (forall x, is_uint32 x -> uint32b (uint32Byte x) = x)
  /\ (forall ip, length ip = 4%nat -> Forall is_byte ip ->
                 uint32Byte (uint32b ip) = ip).
Proof.
  split.
  - intros x Hx. unfold uint32b, uint32Byte.
    rewrite length_be_put. cbn [Nat.ltb Nat.leb].
    rewrite take_ge by (by rewrite length_be_put).
    rewrite be_get_put. apply wrap32_small, Hx.
  - intros ip Hlen Hb.
    destruct ip as [|a [|b [|c [|d [|? ?]]]]]; try discriminate.
    repeat match goal with H : Forall _ (_ :: _) |- _ => inversion H; clear H; subst end.
    unfold is_byte in *.
    unfold uint32b, uint32Byte, be_get. cbn [length Nat.ltb Nat.leb take fold_left be_put].
    rewrite !Z.shiftr_div_pow2 by lia.
    change (2 ^ (8 * Z.of_nat 3)) with 16777216.
    change (2 ^ (8 * Z.of_nat 2)) with 65536.
    change (2 ^ (8 * Z.of_nat 1)) with 256.
    change (2 ^ (8 * Z.of_nat 0)) with 1.
    repeat f_equal; Z.to_euclidean_division_equations; lia.
Qed.

Lemma uint32_bytes_round_trip_witness :
  uint32b (uint32Byte 2851995905) = 2851995905
  /\ uint32Byte (uint32b [169; 254; 1; 1]) = [169; 254; 1; 1].
Proof.
  destruct uint32_bytes_round_trip as [Hnum Hbytes]. split.
  - apply Hnum. unfold is_uint32. lia.
  - apply Hbytes; [reflexivity |].
    repeat constructor; unfold is_byte; lia.
Defined.

Lemma maskAddrCount_range (n : IPNet) : 0 <= maskAddrCount n < 2 ^ 32.
Proof.
  unfold maskAddrCount. destruct (Size (Mask n)) as [ones bits].
  destruct (ones =? bits); [lia |].
  rewrite doubling. unfold wrap32. apply Z.mod_pos_bound. lia.
Qed.

Lemma addrsOfNet_lookup (n : IPNet) (i : Z) :
  0 <= i < maskAddrCount n ->
  addrsOfNet n !! Z.to_nat i = Some (uint32Byte (wrap32 (getCIDRBase n + i))).
Proof.
  intros Hi. rewrite (addrsOfNet_map n (maskAddrCount_range n)).
  rewrite list_lookup_fmap, lookup_seqZ_lt by lia.
  cbn. by rewrite Z2Nat.id by lia.
Qed.

(** X15.  For every network, whatever its mask, the list built by
    [GenerateAddrs] has [maskAddrCount] entries, every entry has four
    bytes, and the entry at index [i] is the 32-bit sum of the base address
    and [i]. *)
Theorem addrsOfNet_entries (n : IPNet) :
  length (addrsOfNet n) = Z.to_nat (maskAddrCount n)
  /\ Forall (fun a => length a = 4%nat) (addrsOfNet n)
  /\ forall i, 0 <= i < maskAddrCount n ->
               addrsOfNet n !! Z.to_nat i
               = Some (uint32Byte (wrap32 (getCIDRBase n + i))).
Proof.
  pose proof (maskAddrCount_range n) as Hc.
  rewrite (addrsOfNet_map n Hc).
  split; [by rewrite length_fmap, length_seqZ |]. split.
  - apply Forall_fmap, Forall_forall. intros j _. exact (length_be_put 4 _).
  - intros i Hi. rewrite <- (addrsOfNet_map n Hc). by apply addrsOfNet_lookup.
Qed.

Lemma addrsOfNet_entries_witness :
  addrsOfNet (mkIPNet [10; 0; 0; 0] [255; 255; 255; 252]) !! Z.to_nat 3
  = Some (uint32Byte (wrap32 (getCIDRBase (mkIPNet [10; 0; 0; 0] [255; 255; 255; 252]) + 3))).
Proof.
  destruct (addrsOfNet_entries (mkIPNet [10; 0; 0; 0] [255; 255; 255; 252]))
    as (_ & _ & H).
  apply H. vm_compute. split; congruence.
Defined.

(** X16.  The addresses generated for an IPv4 range of prefix length 1 to
    32 are pairwise different and all lie in the range: each has the
    network bits of the base address. *)
Theorem addrsOfNet_distinct_in_range (n : IPNet) (ones : Z) :
  ipv4_net n ones = true -> 0 < ones ->
  NoDup (addrsOfNet n)
  /\ forall a, a ∈ addrsOfNet n ->
               be_get a / 2 ^ (32 - ones) = be_get (IP n) / 2 ^ (32 - ones).
Proof.
  intros Hnet Hpos.
  apply ipv4_net_spec in Hnet as (Hones & Hlen & Hbytes & Hmask & Haligned).
  pose proof (be_get_4 (IP n) Hlen Hbytes) as Hb32. unfold is_uint32 in Hb32.
  assert (Hbase : getCIDRBase n = be_get (IP n)).
  { unfold getCIDRBase, uint32b. rewrite Hlen. cbn. by rewrite take_ge by lia. }
  assert (Hpow : 0 < 2 ^ (32 - ones) <= 2 ^ 31).
  { split; [apply Z.pow_pos_nonneg; lia | apply Z.pow_le_mono_r; lia]. }
  assert (Hc : maskAddrCount n = 2 ^ (32 - ones)).
  { rewrite (maskAddrCount_CIDRMask n ones Hones Hmask).
    apply wrap32_small. unfold is_uint32. lia. }
  assert (Hval : forall j, 0 <= j < 2 ^ (32 - ones) ->
                   be_get (uint32Byte (wrap32 (getCIDRBase n + j))) = be_get (IP n) + j).
  { intros j Hj. rewrite Hbase.
    pose proof (aligned_block (be_get (IP n)) (32 - ones) j ltac:(lia) Hb32 Haligned Hj).
    rewrite wrap32_small by (unfold is_uint32; lia).
    unfold uint32Byte. rewrite be_get_put. apply Z.mod_small. cbn. lia. }
  rewrite addrsOfNet_map by (rewrite Hc; lia). rewrite Hc.
  split.
  - apply NoDup_fmap_2_strong; [| apply NoDup_seqZ].
    intros x y Hx Hy Heq. apply elem_of_seqZ in Hx, Hy.
    apply (f_equal be_get) in Heq. rewrite !Hval in Heq by lia. lia.
  - intros a Ha. apply list_elem_of_fmap in Ha as (j & -> & Hj).
    apply elem_of_seqZ in Hj. rewrite Hval by lia.
    pose proof (Z.div_mod (be_get (IP n)) (2 ^ (32 - ones)) ltac:(lia)) as Hdm.
    rewrite Haligned, Z.add_0_r in Hdm.
    rewrite Hdm at 1.
    rewrite Z.mul_comm, Z.div_add_l by lia.
    rewrite (Z.div_small j) by lia. lia.
Qed.

Lemma addrsOfNet_distinct_in_range_witness :
  NoDup (addrsOfNet (mkIPNet [10; 0; 0; 0] [255; 255; 255; 252])).
Proof.
  destruct (addrsOfNet_distinct_in_range
              (mkIPNet [10; 0; 0; 0] [255; 255; 255; 252]) 30 eq_refl ltac:(lia))
    as [H _].
  exact H.
Defined.

(** X17.  [getNthAddr] picks from the list of [GenerateAddrs]: for a
    network with a count other than 0 it returns the entry at index
    [i mod count] of that list; for a count of 0, which is what a /0 range
    has, it panics on the remainder by zero. *)
Theorem getNthAddr_picks (n : IPNet) (i : Z) :
  (maskAddrCount n = 0 ->
   getNthAddr n i = Panic "runtime error: integer divide by zero")
  /\ (maskAddrCount n <> 0 ->
      exists a, getNthAddr n i = Done a
                /\ addrsOfNet n !! Z.to_nat (i mod maskAddrCount n) = Some a)
  /\ (ipv4_net n 0 = true -> maskAddrCount n = 0).
Proof.
  pose proof (maskAddrCount_range n) as Hc.
  split; [| split].
  - intros H0. unfold getNthAddr. by rewrite H0.
  - intros Hne. unfold getNthAddr.
    destruct (Z.eqb_spec (maskAddrCount n) 0) as [| _]; [contradiction |].
    eexists. split; [reflexivity |].
    apply addrsOfNet_lookup. apply Z.mod_pos_bound. lia.
  - intros Hnet.
    apply ipv4_net_spec in Hnet as (Hones & _ & _ & Hmask & _).
    by rewrite (maskAddrCount_CIDRMask n 0 Hones Hmask).
Qed.

Lemma getNthAddr_picks_witness :
  getNthAddr (mkIPNet [10; 0; 0; 0] [255; 255; 255; 252]) 6 = Done [10; 0; 0; 2]
  /\ getNthAddr (mkIPNet [0; 0; 0; 0] [0; 0; 0; 0]) 6
     = Panic "runtime error: integer divide by zero".
Proof.
  split.
  - destruct (getNthAddr_picks (mkIPNet [10; 0; 0; 0] [255; 255; 255; 252]) 6)
      as (_ & Hpick & _).
    destruct Hpick as (a & -> & Ha); [vm_compute; discriminate |].
    vm_compute in Ha. congruence.
  - destruct (getNthAddr_picks (mkIPNet [0; 0; 0; 0] [0; 0; 0; 0]) 6)
      as (Hzero & _ & H0).
    apply Hzero, H0. reflexivity.
Defined.

End AddressMore.

(** ** Validation and hop building, in full *)

Section ConfigMore.
Import Wire Net Config.

Variable ParseCIDR : string -> (list Z * IPNet) + string.

Local Abbreviation GenerateAddrs := (Config.GenerateAddrs ParseCIDR).
Local Abbreviation Validate := (Config.Validate ParseCIDR).
Local Abbreviation validateRouters := (Config.validateRouters ParseCIDR).
Local Abbreviation hopRouters := (Config.hopRouters ParseCIDR).
Local Abbreviation PathToProberHops_loop := (Config.PathToProberHops_loop ParseCIDR).
Local Abbreviation PathToProberHops := (Config.PathToProberHops ParseCIDR).

Lemma GenerateAddrs_Panic (s err : string) :
  GenerateAddrs s = Panic err <-> ParseCIDR s = inr err.
Proof.
  unfold Config.GenerateAddrs. destruct (ParseCIDR s) as [[ip n] | e].
  - split; discriminate.
  - split; congruence.
Qed.

Lemma validateHops_spec (c : Config) (path : string) (hops : list string) :
  match validateHops c path hops with
  | None => forall h, h ∈ hops -> routerExists c h = true
  | Some e => exists h, e = RouterDoesNotExist h path /\ h ∈ hops
                        /\ routerExists c h = false
  end.
Proof.
  induction hops as [|h hs IH]; cbn.
  - intros h Hin. by apply elem_of_nil in Hin.
  - destruct (routerExists c h) eqn:E; cbn.
    + destruct (validateHops c path hs) as [e|].
      * destruct IH as (h' & -> & Hin & Hno). exists h'. split; [done |].
        split; [by right | done].
      * intros h' Hin. apply elem_of_cons in Hin as [-> | Hin]; auto.
    + exists h. split; [done |]. split; [by left | done].
Qed.

Lemma validatePaths_spec (c : Config) :
  match validatePaths c with
  | None => forall p h, p ∈ Paths c -> h ∈ Path.Hops p -> routerExists c h = true
  | Some e => exists p h, e = RouterDoesNotExist h (Path.Name p) /\ p ∈ Paths c
                          /\ h ∈ Path.Hops p /\ routerExists c h = false
  end.
Proof.
  unfold validatePaths. induction (Paths c) as [|p ps IH]; cbn.
  - intros p h Hin. by apply elem_of_nil in Hin.
  - pose proof (validateHops_spec c (Path.Name p) (Path.Hops p)) as Hh.
    destruct (validateHops c (Path.Name p) (Path.Hops p)) as [e|].
    + destruct Hh as (h & -> & Hin & Hno). exists p, h.
      split; [done |]. split; [by left | done].
    + destruct (validatePaths_loop c ps) as [e|].
      * destruct IH as (p' & h & -> & Hp & Hin & Hno). exists p', h.
        split; [done |]. split; [by right | done].
      * intros p' h Hp Hin. apply elem_of_cons in Hp as [-> | Hp]; eauto.
Qed.

Lemma validateRouters_spec (c : Config) :
  match validateRouters c with
  | None => forall r, r ∈ Routers c -> exists v, ParseCIDR (Router.DstRange r) = inl v
  | Some e => exists r err, e = UnableToParseDstRange (Router.Name r) err
                            /\ r ∈ Routers c
                            /\ ParseCIDR (Router.DstRange r) = inr err
  end.
Proof.
  unfold Config.validateRouters. induction (Routers c) as [|r rs IH]; cbn.
  - intros r Hin. by apply elem_of_nil in Hin.
  - destruct (ParseCIDR (Router.DstRange r)) as [v | err] eqn:E.
    + destruct (Config.validateRouters_loop ParseCIDR rs) as [e|].
      * destruct IH as (r' & err & -> & Hin & Hbad). exists r', err.
        split; [done |]. split; [by right | done].
      * intros r' Hin. apply elem_of_cons in Hin as [-> | Hin]; eauto.
    + exists r, err. split; [done |]. split; [by left | done].
Qed.

(** X18.  [Validate] returns [nil] exactly for the configurations in which
    every hop of every path is the name of a router and the destination
    range of every router parses, whether a path uses the router or not. *)
Theorem Validate_nil_iff (c : Config) :
  Validate c = None
  <-> (forall p h, p ∈ Paths c -> h ∈ Path.Hops p ->
                   exists r, r ∈ Routers c /\ Router.Name r = h)
      /\ (forall r, r ∈ Routers c -> exists v, ParseCIDR (Router.DstRange r) = inl v).
Proof.
  unfold Config.Validate.
  pose proof (validatePaths_spec c) as Hp.
  pose proof (validateRouters_spec c) as Hr.
  destruct (validatePaths c) as [e|].
  - split; [discriminate |]. intros [Hall _].
    destruct Hp as (p & h & _ & Hin & Hh & Hno).
    specialize (Hall p h Hin Hh). apply routerExists_spec in Hall. congruence.
  - destruct (validateRouters c) as [e|].
    + split; [discriminate |]. intros [_ Hall].
      destruct Hr as (r & err & _ & Hin & Hbad).
      destruct (Hall r Hin) as [v Hv]. congruence.
    + split; [| reflexivity]. intros _. split; [| exact Hr].
      intros p h Hin Hh. apply routerExists_spec. eauto.
Qed.

(** X19.  An error of [Validate] names a real defect, and paths come
    first: either it wraps the missing router of some hop of some path, or
    all paths are sound and it wraps the name and the parse error of a
    router whose destination range does not parse. *)
Theorem Validate_error_sound (c : Config) (e : error) :
  Validate c = Some e ->
  (exists p h, e = PathValidationFailed (RouterDoesNotExist h (Path.Name p))
               /\ p ∈ Paths c /\ h ∈ Path.Hops p
               /\ ~ exists r, r ∈ Routers c /\ Router.Name r = h)
  \/ (exists r err,
         e = RouterValidationFailed (UnableToParseDstRange (Router.Name r) err)
         /\ r ∈ Routers c /\ ParseCIDR (Router.DstRange r) = inr err
         /\ validatePaths c = None).
Proof.
  unfold Config.Validate.
  pose proof (validatePaths_spec c) as Hp.
  pose proof (validateRouters_spec c) as Hr.
  destruct (validatePaths c) as [e1|].
  - intros [= <-]. left.
    destruct Hp as (p & h & -> & Hin & Hh & Hno). exists p, h.
    split; [done |]. split; [done |]. split; [done |].
    intros Hex. apply routerExists_spec in Hex. congruence.
  - destruct (validateRouters c) as [e2|]; [| discriminate].
    intros [= <-]. right.
    destruct Hr as (r & err & -> & Hin & Hbad). exists r, err. done.
Qed.

(** A hop built from a router: the router's name and the address lists of
    its two ranges. *)
Local Abbreviation built_from hop r :=
  (Hop.Name hop = Router.Name r
   /\ GenerateAddrs (Router.DstRange r) = Done (Hop.DstRange hop)
   /\ GenerateAddrs (Router.SrcRange r) = Done (Hop.SrcRange hop)).

Lemma hopRouters_spec (h : string) (routers : list Router.Router) (res : list Hop.Hop) :
  match hopRouters h routers res with
  | Done res' =>
      exists new, res' = res ++ new
                  /\ Forall2 (fun hop r => built_from hop r) new
                       (filter (fun r => Router.Name r = h) routers)
  | Panic e =>
      exists r, r ∈ routers /\ Router.Name r = h
                /\ (ParseCIDR (Router.DstRange r) = inr e
                    \/ ParseCIDR (Router.SrcRange r) = inr e)
  end.
Proof.
  revert res. induction routers as [|r rs IH]; intros res; cbn [Config.hopRouters].
  - exists []. split; [by rewrite app_nil_r | constructor].
  - destruct (String.eqb_spec h (Router.Name r)) as [Heq | Hne]; cbn [negb].
    + destruct (GenerateAddrs (Router.DstRange r)) as [dst | e] eqn:Hdst.
      2:{ exists r. apply GenerateAddrs_Panic in Hdst. split; [by left | auto]. }
      destruct (GenerateAddrs (Router.SrcRange r)) as [src | e] eqn:Hsrc.
      2:{ exists r. apply GenerateAddrs_Panic in Hsrc. split; [by left | auto]. }
      specialize (IH (res ++ [Hop.mkHop (Router.Name r) dst src])).
      destruct (hopRouters h rs _) as [res' | e].
      * destruct IH as (new & -> & Hnew).
        exists (Hop.mkHop (Router.Name r) dst src :: new).
        split; [by rewrite <- app_assoc |].
        rewrite filter_cons_True by done. constructor; [done | exact Hnew].
      * destruct IH as (r' & Hin & Hrest). exists r'. split; [by right | done].
    + specialize (IH res). destruct (hopRouters h rs res) as [res' | e].
      * destruct IH as (new & -> & Hnew). exists new. split; [done |].
        rewrite filter_cons_False by congruence. exact Hnew.
      * destruct IH as (r' & Hin & Hrest). exists r'. split; [by right | done].
Qed.

Lemma PathToProberHops_loop_spec (c : Config) (hops : list string) (res : list Hop.Hop) :
  match PathToProberHops_loop c hops res with
  | Done res' =>
      exists new, res' = res ++ new
                  /\ Forall2 (fun hop r => built_from hop r) new
                       (h ← hops; filter (fun r => Router.Name r = h) (Routers c))
  | Panic e =>
      exists h r, h ∈ hops /\ r ∈ Routers c /\ Router.Name r = h
                  /\ (ParseCIDR (Router.DstRange r) = inr e
                      \/ ParseCIDR (Router.SrcRange r) = inr e)
  end.
Proof.
  revert res. induction hops as [|h hs IH]; intros res;
    cbn [Config.PathToProberHops_loop].
  - exists []. split; [by rewrite app_nil_r | constructor].
  - pose proof (hopRouters_spec h (Routers c) res) as Hh.
    destruct (hopRouters h (Routers c) res) as [res1 | e].
    + destruct Hh as (new1 & -> & Hnew1).
      specialize (IH (res ++ new1)).
      destruct (PathToProberHops_loop c hs (res ++ new1)) as [res' | e].
      * destruct IH as (new2 & -> & Hnew2). exists (new1 ++ new2).
        split; [by rewrite app_assoc |].
        rewrite bind_cons. by apply Forall2_app.
      * destruct IH as (h' & r & Hin & Hrest). exists h', r.
        split; [by right | done].
    + destruct Hh as (r & Hin & Hrest). exists h, r. split; [by left | done].
Qed.

(** X20.  [PathToProberHops] panics exactly when some hop of the path is
    the name of a router one of whose two ranges does not parse.  A hop
    that names no router does not make it panic. *)
Theorem PathToProberHops_panics_iff (c : Config) (pathCfg : Path.Path) :
  (exists e, PathToProberHops c pathCfg = Panic e)
  <-> exists h r, h ∈ Path.Hops pathCfg /\ r ∈ Routers c /\ Router.Name r = h
                  /\ ((exists e, ParseCIDR (Router.DstRange r) = inr e)
                      \/ (exists e, ParseCIDR (Router.SrcRange r) = inr e)).
Proof.
  unfold Config.PathToProberHops.
  pose proof (PathToProberHops_loop_spec c (Path.Hops pathCfg) []) as Hspec.
  destruct (PathToProberHops_loop c (Path.Hops pathCfg) []) as [res | e].
  - split; [intros [e He]; discriminate |].
    intros (h & r & Hh & Hr & Hname & Hbad). exfalso.
    destruct Hspec as (new & _ & Hbuilt).
    assert (Hin : r ∈ (h' ← Path.Hops pathCfg;
                       filter (fun r => Router.Name r = h') (Routers c))).
    { apply list_elem_of_bind. exists h. split; [| exact Hh].
      apply list_elem_of_filter. by split. }
    apply list_elem_of_lookup in Hin as [i Hi].
    destruct (Forall2_lookup_r _ _ _ _ _ Hbuilt Hi) as (hop & _ & _ & Hdst & Hsrc).
    unfold Config.GenerateAddrs in Hdst, Hsrc.
    destruct Hbad as [[e He] | [e He]]; [rewrite He in Hdst | rewrite He in Hsrc];
      discriminate.
  - split; [| eauto]. intros _.
    destruct Hspec as (h & r & Hh & Hr & Hname & [Hbad | Hbad]); exists h, r; eauto 8.
Qed.

(** X21.  When [PathToProberHops] returns, its hops follow the path: hop
    name by hop name in the order of the path, and for each name the
    routers of that name in the order of [Routers], each giving one hop
    with the router's name and the address lists of its two ranges.  A hop
    name that no router has gives no hop. *)
Theorem PathToProberHops_builds (c : Config) (pathCfg : Path.Path) (hops : list Hop.Hop) :
  PathToProberHops c pathCfg = Done hops ->
  Forall2 (fun hop r => built_from hop r) hops
    (h ← Path.Hops pathCfg; filter (fun r => Router.Name r = h) (Routers c)).
Proof.
  unfold Config.PathToProberHops. intros Hrun.
  pose proof (PathToProberHops_loop_spec c (Path.Hops pathCfg) []) as Hspec.
  rewrite Hrun in Hspec. destruct Hspec as (new & -> & Hbuilt). exact Hbuilt.
Qed.

Lemma filter_no_name (routers : list Router.Router) (name : string) :
  name ∉ Router.Name <$> routers ->
  filter (fun r' => Router.Name r' = name) routers = [].
Proof.
  induction routers as [|r0 rs IH]; intros Hfresh; [reflexivity |].
  rewrite fmap_cons in Hfresh. apply not_elem_of_cons in Hfresh as [Hne Hfresh].
  rewrite filter_cons_False by congruence. by apply IH.
Qed.

Lemma filter_unique_name (routers : list Router.Router) (r : Router.Router) :
  NoDup (Router.Name <$> routers) -> r ∈ routers ->
  filter (fun r' => Router.Name r' = Router.Name r) routers = [r].
Proof.
  induction routers as [|r0 rs IH]; intros Hnd Hin.
  - by apply elem_of_nil in Hin.
  - rewrite fmap_cons in Hnd. apply NoDup_cons in Hnd as [Hfresh Hnd].
    apply elem_of_cons in Hin as [-> | Hin].
    + rewrite filter_cons_True by done. f_equal.
      by apply filter_no_name.
    + rewrite filter_cons_False; [by apply IH |].
      intros Hname. apply Hfresh. rewrite Hname. apply list_elem_of_fmap. eauto.
Qed.

(** X22.  On a configuration that [Validate] accepts, with router names
    that are pairwise different and source ranges that parse,
    [PathToProberHops] returns for every path of the configuration one hop
    per hop name, in the order of the path. *)
Theorem PathToProberHops_on_valid (c : Config) (pathCfg : Path.Path) :
  Validate c = None ->
  NoDup (Router.Name <$> Routers c) ->
  (forall r, r ∈ Routers c -> exists v, ParseCIDR (Router.SrcRange r) = inl v) ->
  pathCfg ∈ Paths c ->
  exists hops, PathToProberHops c pathCfg = Done hops
               /\ Hop.Name <$> hops = Path.Hops pathCfg.
Proof.
  intros Hval Hnd Hsrc Hpath.
  assert (Hexists : forall h, h ∈ Path.Hops pathCfg ->
                      exists r, r ∈ Routers c /\ Router.Name r = h).
  { intros h Hh. pose proof (validatePaths_spec c) as Hp.
    unfold Config.Validate in Hval.
    destruct (validatePaths c); [discriminate |].
    apply routerExists_spec. eauto. }
  assert (Hdst : forall r, r ∈ Routers c ->
                   exists v, ParseCIDR (Router.DstRange r) = inl v).
  { pose proof (validateRouters_spec c) as Hr. unfold Config.Validate in Hval.
    destruct (validatePaths c); [discriminate |].
    destruct (validateRouters c); [discriminate | exact Hr]. }
  unfold Config.PathToProberHops.
  pose proof (PathToProberHops_loop_spec c (Path.Hops pathCfg) []) as Hspec.
  destruct (PathToProberHops_loop c (Path.Hops pathCfg) []) as [res | e].
  - exists res. split; [reflexivity |].
    destruct Hspec as (new & -> & Hbuilt). cbn [app].
    revert new Hbuilt. clear Hpath.
    induction (Path.Hops pathCfg) as [|h hs IH]; intros new Hbuilt.
    + cbn in Hbuilt. by inversion Hbuilt.
    + rewrite bind_cons in Hbuilt.
      destruct (Hexists h ltac:(by left)) as (r & Hr & <-).
      rewrite (filter_unique_name (Routers c) r Hnd Hr) in Hbuilt.
      cbn [app] in Hbuilt. inversion Hbuilt as [|hop r' new' rs' [Hname _] Hrest]; subst.
      rewrite fmap_cons, Hname. f_equal.
      apply IH; [| exact Hrest]. intros h' Hh'. apply Hexists. by right.
  - exfalso. destruct Hspec as (h & r & _ & Hr & _ & [Hbad | Hbad]).
    + destruct (Hdst r Hr) as [v Hv]. congruence.
    + destruct (Hsrc r Hr) as [v Hv]. congruence.
Qed.

End ConfigMore.

(** ** IPv6 ranges *)

Section Ipv6Ranges.
Import Wire Net Config.

Variable ParseCIDR : string -> (list Z * IPNet) + string.

Lemma Size_CIDRMask16 (ones : Z) :
  0 <= ones <= 96 -> Size (CIDRMask_bytes 16 ones) = (ones, 128).
Proof.
  intros H. rewrite <- (Z2Nat.id ones) by lia.
  assert (Hk : (Z.to_nat ones <= 96)%nat) by lia.
  revert Hk. generalize (Z.to_nat ones). intros k Hk.
  do 97 (destruct k as [|k]; [vm_compute; reflexivity |]). lia.
Qed.

(** X23.  An IPv6 range with a prefix of at most 96 bits, which [Validate]
    accepts as a destination range like any range that parses, yields no
    address at all: the count 2^(128-ones) is 0 as a uint32, so
    [GenerateAddrs] returns the empty list and [getNthAddr] panics. *)
Theorem GenerateAddrs_ipv6_empty (addrRange : string) (ip : list Z) (n : IPNet)
  (ones i : Z) :
  ParseCIDR addrRange = inl (ip, n) ->
  Mask n = CIDRMask_bytes 16 ones -> 0 <= ones <= 96 ->
  Config.GenerateAddrs ParseCIDR addrRange = Done []
  /\ getNthAddr n i = Panic "runtime error: integer divide by zero".
Proof.
  intros Hparse Hmask Hones.
  assert (Hc : maskAddrCount n = 0).
  { unfold maskAddrCount. rewrite Hmask, Size_CIDRMask16 by exact Hones.
    destruct (Z.eqb_spec ones 128) as [-> | _]; [lia |].
    rewrite doubling, Z2Nat.id by lia. unfold wrap32.
    replace (128 - ones) with (32 + (96 - ones)) by lia.
    rewrite Z.pow_add_r, Z.mul_comm by lia. apply Z.mod_mul. lia. }
  split.
  - unfold Config.GenerateAddrs. rewrite Hparse. unfold addrsOfNet.
    rewrite Hc. reflexivity.
  - unfold getNthAddr. rewrite Hc. reflexivity.
Qed.

End Ipv6Ranges.

(** ** Defaults *)

Section DefaultsFacts.
Import Wire Net Config.

(** The defaults section after [applyDefaults]. *)
Local Abbreviation filled c :=
  (applyDefaults_Defaults
     (match Defaults c with
      | None => Defaults.mkDefaults None None None None None None
      | Some d => d
      end)).

(** What [applyDefaults] makes of a path and of a router, given filled
    defaults. *)
Local Abbreviation path_with d p :=
  (Path.mkPath (Path.Name p) (Path.Hops p)
     (orElse (Path.MeasurementLengthMS p) (Defaults.MeasurementLengthMS d))
     (orElse (Path.PayloadSizeBytes p) (Defaults.PayloadSizeBytes d))
     (orElse (Path.PPS p) (Defaults.PPS d))
     (orElse (Path.TimeoutMS p) (Defaults.TimeoutMS d))).

Local Abbreviation router_with s r :=
  (if String.eqb (Router.SrcRange r) ""
   then Router.mkRouter (Router.Name r) (Router.DstRange r) s
   else r).

Lemma orElse_default {A : Type} (x : option A) (v : A) :
  orElse x (Some v) = Some (default v x).
Proof. by destruct x. Qed.

Lemma orElse_default2 {A : Type} (x y : option A) (v : A) :
  orElse x (orElse y (Some v)) = Some (default (default v y) x).
Proof. by destruct x, y. Qed.

Lemma orElse_twice {A : Type} (x y : option A) : orElse (orElse x y) y = orElse x y.
Proof. by destruct x, y. Qed.

Lemma applyDefaults_each_Path (d : Defaults.Defaults) (paths : list Path.Path) :
  applyDefaults_each (applyDefaults_Path (Some d)) paths
  = Done ((fun p => path_with d p) <$> paths).
Proof.
  induction paths as [|p ps IH]; [reflexivity |].
  cbn [applyDefaults_each applyDefaults_Path]. by rewrite IH.
Qed.

Lemma applyDefaults_each_Router (d : Defaults.Defaults) (s : string)
  (routers : list Router.Router) :
  Defaults.SrcRange d = Some s ->
  applyDefaults_each (applyDefaults_Router (Some d)) routers
  = Done ((fun r => router_with s r) <$> routers).
Proof.
  intros Hs. induction routers as [|r rs IH]; [reflexivity |].
  cbn [applyDefaults_each]. unfold applyDefaults_Router at 1. rewrite Hs, IH.
  rewrite fmap_cons. by destruct (String.eqb (Router.SrcRange r) "").
Qed.

Lemma filled_SrcRange (c : FullConfig) :
  Defaults.SrcRange (filled c)
  = Some (default dfltSrcRange (Defaults c ≫= Defaults.SrcRange)).
Proof. destruct (Defaults c) as [d|]; cbn; [apply orElse_default | reflexivity]. Qed.

(** [ApplyDefaults] in one piece. *)
Lemma ApplyDefaults_Done (c : FullConfig) :
  ApplyDefaults c
  = Done (mkFullConfig (Version c)
            (orElse (MetricsPath c) (Some dfltMetricsPath))
            (orElse (ListenAddress c) (Some dfltListenAddress))
            (orElse (BasePort c) (Some dfltBasePort))
            (Some (filled c))
            (orElse (SrcRange c) (Defaults.SrcRange (filled c)))
            (orElse (Classes c) (Some [dfltClass]))
            (mkConfig
               ((fun p => path_with (filled c) p) <$> Paths (core c))
               ((fun r => router_with
                            (default dfltSrcRange (Defaults c ≫= Defaults.SrcRange)) r)
                  <$> Routers (core c)))).
Proof.
  unfold ApplyDefaults. cbv zeta.
  rewrite applyDefaults_each_Path.
  by rewrite (applyDefaults_each_Router _ _ _ (filled_SrcRange c)).
Qed.

(** X24.  [ApplyDefaults] never panics, although [Router.applyDefaults]
    dereferences two pointers, and it leaves no setting unset: the metrics
    path, the listen address, the base port, the source range, the class
    list and all five defaults have a value, the one that was configured
    if there was one.  An empty class list that is not nil stays empty. *)
Theorem ApplyDefaults_fills (c : FullConfig) :
  exists c' d',
    ApplyDefaults c = Done c'
    /\ Version c' = Version c
    /\ MetricsPath c' = Some (default dfltMetricsPath (MetricsPath c))
    /\ ListenAddress c' = Some (default dfltListenAddress (ListenAddress c))
    /\ BasePort c' = Some (default dfltBasePort (BasePort c))
    /\ Classes c' = Some (default [dfltClass] (Classes c))
    /\ SrcRange c'
       = Some (default (default dfltSrcRange (Defaults c ≫= Defaults.SrcRange))
                 (SrcRange c))
    /\ Defaults c' = Some d'
    /\ Defaults.MeasurementLengthMS d'
       = Some (default dfltMeasurementLengthMS
                 (Defaults c ≫= Defaults.MeasurementLengthMS))
    /\ Defaults.PayloadSizeBytes d'
       = Some (default dfltPayloadSizeBytes (Defaults c ≫= Defaults.PayloadSizeBytes))
    /\ Defaults.PPS d' = Some (default dfltPPS (Defaults c ≫= Defaults.PPS))
    /\ Defaults.SrcRange d'
       = Some (default dfltSrcRange (Defaults c ≫= Defaults.SrcRange))
    /\ Defaults.TimeoutMS d'
       = Some (default dfltTimeoutMS (Defaults c ≫= Defaults.TimeoutMS))
    /\ Defaults.SrcInterface d' = Defaults c ≫= Defaults.SrcInterface.
Proof.
  eexists. exists (filled c). split; [apply ApplyDefaults_Done |].
  cbn [Version MetricsPath ListenAddress BasePort Classes SrcRange Defaults].
  rewrite !orElse_default, filled_SrcRange, orElse_default.
  destruct (Defaults c) as [d|]; cbn; rewrite ?orElse_default;
    repeat split; reflexivity.
Qed.

(** X25.  After [ApplyDefaults] each setting of a path is the path's own
    if it had one, else the one of the defaults section if that had one,
    else the built-in value; the name and the hops of the path are kept.
    A router keeps its name and destination range, and its source range
    unless that is empty, in which case it takes the source range of the
    defaults section or, without one, 169.254.0.0/16; the source range at
    the top of the configuration plays no part. *)
Theorem ApplyDefaults_precedence (c c' : FullConfig) :
  ApplyDefaults c = Done c' ->
  Forall2 (fun p p' =>
             Path.Name p' = Path.Name p /\ Path.Hops p' = Path.Hops p
             /\ Path.MeasurementLengthMS p'
                = Some (default (default dfltMeasurementLengthMS
                                   (Defaults c ≫= Defaults.MeasurementLengthMS))
                          (Path.MeasurementLengthMS p))
             /\ Path.PayloadSizeBytes p'
                = Some (default (default dfltPayloadSizeBytes
                                   (Defaults c ≫= Defaults.PayloadSizeBytes))
                          (Path.PayloadSizeBytes p))
             /\ Path.PPS p'
                = Some (default (default dfltPPS (Defaults c ≫= Defaults.PPS))
                          (Path.PPS p))
             /\ Path.TimeoutMS p'
                = Some (default (default dfltTimeoutMS (Defaults c ≫= Defaults.TimeoutMS))
                          (Path.TimeoutMS p)))
    (Paths (core c)) (Paths (core c'))
  /\ Forall2 (fun r r' =>
                Router.Name r' = Router.Name r
                /\ Router.DstRange r' = Router.DstRange r
                /\ Router.SrcRange r'
                   = if decide (Router.SrcRange r = "")
                     then default dfltSrcRange (Defaults c ≫= Defaults.SrcRange)
                     else Router.SrcRange r)
       (Routers (core c)) (Routers (core c')).
Proof.
  rewrite ApplyDefaults_Done. intros [= <-]. cbn [core Paths Routers]. split.
  - apply Forall2_fmap_r, Forall_Forall2_diag, Forall_forall. intros p _.
    cbn [Path.Name Path.Hops Path.MeasurementLengthMS Path.PayloadSizeBytes
         Path.PPS Path.TimeoutMS].
    destruct (Defaults c) as [d|]; cbn; rewrite ?orElse_default2, ?orElse_default;
      repeat split; reflexivity.
  - apply Forall2_fmap_r, Forall_Forall2_diag, Forall_forall. intros r _.
    unfold compose.
    destruct (String.eqb_spec (Router.SrcRange r) "") as [Heq | Hne];
      destruct (decide (Router.SrcRange r = "")); try contradiction; done.
Qed.

Lemma applyDefaults_Defaults_twice (d : Defaults.Defaults) :
  applyDefaults_Defaults (applyDefaults_Defaults d) = applyDefaults_Defaults d.
Proof. destruct d as [[?|] [?|] [?|] [?|] [?|] ?]; reflexivity. Qed.

(** X26.  [ApplyDefaults] is idempotent: applied to its own result it
    returns that result. *)
Theorem ApplyDefaults_idempotent (c c' : FullConfig) :
  ApplyDefaults c = Done c' -> ApplyDefaults c' = Done c'.
Proof.
  rewrite ApplyDefaults_Done. intros [= <-]. rewrite ApplyDefaults_Done.
  set (d0 := match Defaults c with Some d => d | None => _ end).
  cbn [Version MetricsPath ListenAddress BasePort Classes SrcRange Defaults core
       Paths Routers].
  rewrite applyDefaults_Defaults_twice.
  set (D := applyDefaults_Defaults d0).
  assert (Hs : default dfltSrcRange (Some D ≫= Defaults.SrcRange)
               = default dfltSrcRange (Defaults c ≫= Defaults.SrcRange)).
  { subst D d0. destruct (Defaults c) as [d|];
      [destruct d as [? ? ? [?|] ? ?] |]; reflexivity. }
  rewrite Hs. clear Hs.
  f_equal. f_equal; try apply orElse_twice.
  rewrite <- !list_fmap_compose. f_equal.
  - apply list_fmap_ext. intros _ p _. unfold compose.
    cbn [Path.Name Path.Hops Path.MeasurementLengthMS Path.PayloadSizeBytes
         Path.PPS Path.TimeoutMS].
    f_equal; apply orElse_twice.
  - apply list_fmap_ext. intros _ r _. unfold compose.
    destruct (String.eqb_spec (Router.SrcRange r) "") as [Heq | Hne].
    + cbn [Router.SrcRange Router.Name Router.DstRange].
      by destruct (String.eqb _ "").
    + by destruct (String.eqb_spec (Router.SrcRange r) "").
Qed.

(** *** Defaults and validation *)

Section DefaultsAndValidation.
Variable ParseCIDR : string -> (list Z * IPNet) + string.

Lemma routerExists_loop_router_with (s needle : string) (routers : list Router.Router) :
  routerExists_loop ((fun r => router_with s r) <$> routers) needle
  = routerExists_loop routers needle.
Proof.
  induction routers as [|r rs IH]; [reflexivity |].
  rewrite fmap_cons. cbn [routerExists_loop]. rewrite IH.
  by destruct (String.eqb (Router.SrcRange r) "").
Qed.

Lemma validateRouters_loop_router_with (s : string) (routers : list Router.Router) :
  validateRouters_loop ParseCIDR ((fun r => router_with s r) <$> routers)
  = validateRouters_loop ParseCIDR routers.
Proof.
  induction routers as [|r rs IH]; [reflexivity |].
  rewrite fmap_cons. cbn [validateRouters_loop]. rewrite IH.
  by destruct (String.eqb (Router.SrcRange r) "").
Qed.

Lemma validateHops_ext (c1 c2 : Config) (path : string) (hops : list string) :
  (forall h, routerExists c1 h = routerExists c2 h) ->
  validateHops c1 path hops = validateHops c2 path hops.
Proof.
  intros Hex. induction hops as [|h hs IH]; [reflexivity |].
  cbn. by rewrite Hex, IH.
Qed.

Lemma validatePaths_loop_ext (c1 c2 : Config) (f : Path.Path -> Path.Path)
  (paths : list Path.Path) :
  (forall h, routerExists c1 h = routerExists c2 h) ->
  (forall p, Path.Name (f p) = Path.Name p /\ Path.Hops (f p) = Path.Hops p) ->
  validatePaths_loop c1 (f <$> paths) = validatePaths_loop c2 paths.
Proof.
  intros Hex Hf. induction paths as [|p ps IH]; [reflexivity |].
  rewrite fmap_cons. cbn [validatePaths_loop].
  destruct (Hf p) as [-> ->].
  by rewrite (validateHops_ext c1 c2 _ _ Hex), IH.
Qed.

(** X27.  Defaulting does not change the verdict of validation:
    [Validate] returns the same value, [nil] or the same error, on a
    configuration and on the result of [ApplyDefaults], so the two can be
    called in either order. *)
Theorem Validate_after_ApplyDefaults (c c' : FullConfig) :
  ApplyDefaults c = Done c' ->
  Validate ParseCIDR (core c') = Validate ParseCIDR (core c).
Proof.
  rewrite ApplyDefaults_Done. intros [= <-]. cbn [core].
  set (s := default dfltSrcRange (Defaults c ≫= Defaults.SrcRange)).
  assert (Hex : forall paths h,
             routerExists
               (mkConfig paths ((fun r => router_with s r) <$> Routers (core c))) h
             = routerExists (core c) h).
  { intros paths h. unfold routerExists. cbn [Routers].
    apply routerExists_loop_router_with. }
  unfold Validate, validatePaths, validateRouters. cbn [Paths Routers].
  rewrite (validatePaths_loop_ext _ (core c) _ _ (Hex _)) by (intros p; split; reflexivity).
  by rewrite validateRouters_loop_router_with.
Qed.

End DefaultsAndValidation.

End DefaultsFacts.

(** ** The further configuration properties on concrete input *)

Section ConfigMoreRuns.
Import Wire Net Config Scenario.

(** [config3] has a path through "r9", which is no router. *)
Lemma Validate_error_sound_witness :
  let e := PathValidationFailed (RouterDoesNotExist "r9" "p3") in
  (exists p h, e = PathValidationFailed (RouterDoesNotExist h (Path.Name p))
               /\ p ∈ Paths config3 /\ h ∈ Path.Hops p
               /\ ~ exists r, r ∈ Routers config3 /\ Router.Name r = h)
  \/ (exists r err,
         e = RouterValidationFailed (UnableToParseDstRange (Router.Name r) err)
         /\ r ∈ Routers config3 /\ parseCIDR (Router.DstRange r) = inr err
         /\ validatePaths config3 = None).
Proof.
  intros e. apply (Validate_error_sound parseCIDR config3 e). reflexivity.
Defined.

(** The hops of [path2] on [config2]: router "r3" first, then "r2". *)
Lemma PathToProberHops_builds_witness :
  exists hops,
    PathToProberHops parseCIDR config2 path2 = Done hops
    /\ Forall2 (fun hop r =>
                  Hop.Name hop = Router.Name r
                  /\ GenerateAddrs parseCIDR (Router.DstRange r) = Done (Hop.DstRange hop)
                  /\ GenerateAddrs parseCIDR (Router.SrcRange r) = Done (Hop.SrcRange hop))
         hops
         (h ← Path.Hops path2; filter (fun r => Router.Name r = h) (Routers config2)).
Proof.
  eexists. split; [vm_compute; reflexivity |].
  apply (PathToProberHops_builds parseCIDR config2 path2).
  vm_compute. reflexivity.
Defined.

Lemma PathToProberHops_on_valid_witness :
  exists hops, PathToProberHops parseCIDR config2 path2 = Done hops
               /\ Hop.Name <$> hops = Path.Hops path2.
Proof.
  apply (PathToProberHops_on_valid parseCIDR config2 path2).
  - reflexivity.
  - apply (bool_decide_unpack _). vm_compute. exact I.
  - intros r Hin.
    repeat (apply elem_of_cons in Hin as [-> | Hin]; [eexists; reflexivity |]).
    by apply elem_of_nil in Hin.
  - apply list_elem_of_singleton. reflexivity.
Defined.

(** The IPv6 range 2001:db8::/32 gives no address. *)
Lemma GenerateAddrs_ipv6_empty_witness :
  GenerateAddrs parseCIDR6 "2001:db8::/32" = Done []
  /\ getNthAddr
       (mkIPNet [32; 1; 13; 184; 0; 0; 0; 0; 0; 0; 0; 0; 0; 0; 0; 0]
          [255; 255; 255; 255; 0; 0; 0; 0; 0; 0; 0; 0; 0; 0; 0; 0]) 5
     = Panic "runtime error: integer divide by zero".
Proof.
  apply (GenerateAddrs_ipv6_empty parseCIDR6 "2001:db8::/32"
           [32; 1; 13; 184; 0; 0; 0; 0; 0; 0; 0; 0; 0; 0; 0; 0] _ 32 5).
  - reflexivity.
  - reflexivity.
  - lia.
Defined.

(** [file1] sets a default timeout of 250 ms and a payload size on its
    path, and leaves the source range of router "r2" empty. *)
Lemma ApplyDefaults_precedence_witness :
  exists c',
    ApplyDefaults file1 = Done c'
    /\ Forall2 (fun p p' =>
                  Path.Name p' = Path.Name p /\ Path.Hops p' = Path.Hops p
                  /\ Path.MeasurementLengthMS p'
                     = Some (default (default dfltMeasurementLengthMS
                                        (Defaults file1 ≫= Defaults.MeasurementLengthMS))
                               (Path.MeasurementLengthMS p))
                  /\ Path.PayloadSizeBytes p'
                     = Some (default (default dfltPayloadSizeBytes
                                        (Defaults file1 ≫= Defaults.PayloadSizeBytes))
                               (Path.PayloadSizeBytes p))
                  /\ Path.PPS p'
                     = Some (default (default dfltPPS (Defaults file1 ≫= Defaults.PPS))
                               (Path.PPS p))
                  /\ Path.TimeoutMS p'
                     = Some (default (default dfltTimeoutMS
                                        (Defaults file1 ≫= Defaults.TimeoutMS))
                               (Path.TimeoutMS p)))
         (Paths (core file1)) (Paths (core c'))
    /\ Forall2 (fun r r' =>
                  Router.Name r' = Router.Name r
                  /\ Router.DstRange r' = Router.DstRange r
                  /\ Router.SrcRange r'
                     = if decide (Router.SrcRange r = "")
                       then default dfltSrcRange (Defaults file1 ≫= Defaults.SrcRange)
                       else Router.SrcRange r)
         (Routers (core file1)) (Routers (core c')).
Proof.
  eexists. split; [vm_compute; reflexivity |].
  apply (ApplyDefaults_precedence file1). vm_compute. reflexivity.
Defined.

Lemma ApplyDefaults_idempotent_witness :
  exists c', ApplyDefaults file1 = Done c' /\ ApplyDefaults c' = Done c'.
Proof.
  eexists. split; [vm_compute; reflexivity |].
  apply (ApplyDefaults_idempotent file1). vm_compute. reflexivity.
Defined.

Lemma Validate_after_ApplyDefaults_witness :
  exists c', ApplyDefaults file1 = Done c'
             /\ Validate parseCIDR (core c') = Validate parseCIDR (core file1).
Proof.
  eexists. split; [vm_compute; reflexivity |].
  apply (Validate_after_ApplyDefaults parseCIDR file1). vm_compute. reflexivity.
Defined.

End ConfigMoreRuns.
